(** * Poker agent: hand evaluator, strategy engine and polling controller

    A shallow embedding of [poker-agent.ts] (classes [HandEvaluator],
    [StrategyEngine] and [PokerAgent]) together with the properties of the
    design document that can be settled on it.

    Modelling conventions.
    - A JavaScript [number] that holds money or a strength is an exact
      rational ([Q]) in the modules [StrategyEngine] and [PokerAgent];
      the one place where the source can produce an infinity (the
      pot-odds quotient with a zero denominator) is modelled explicitly.
      The rounding of IEEE doubles changes the value of a bet, so the
      sizing is also given over an arbitrary arithmetic ([EngineOver]),
      with binary64 as one instance.
    - Ranks and frequency counts are integers ([Z]).
    - A JavaScript string is a sequence of code units, modelled by [string];
      one character of the model stands for one code unit of the source, so
      the examples write suits with the letters S, H, D and C.
    - [Record<string, T>] objects are finite maps ([gmap string T]); the
      rank-count object, whose integer keys JavaScript enumerates in
      ascending order, is a key-sorted association list.
    - [Math.random()] is an explicit argument; remote calls to the game
      server are answered by an explicit record of collaborator responses,
      and every call the controller makes is logged in a trace.
    - [console.log] output is not modelled. *)

From Stdlib Require Import QArith Qround Qminmax ZArith Lia Lqa List.
From Stdlib Require Import Floats Uint63.
From stdpp Require Import gmap strings.

(** ** Numbers *)

Module Num.

Definition Qltb (a b : Q) : bool := negb (Qle_bool b a).
Definition Qgeb (a b : Q) : bool := Qle_bool b a.

(** The result of a JavaScript division of a positive number: a finite
    value, or [+Infinity] when the denominator is zero. *)
Inductive ext : Type :=
| Fin (q : Q)
| PosInf.

(** [x < c] for a finite bound [c]. *)
Definition ext_ltb (x : ext) (c : Q) : bool :=
  match x with
  | Fin q => Qltb q c
  | PosInf => false
  end.

(** [x >= c] for a finite bound [c], as a proposition. *)
Definition ext_ge (x : ext) (c : Q) : Prop :=
  match x with
  | Fin q => (c <= q)%Q
  | PosInf => True
  end.

End Num.

(** ** Hand evaluator *)

Module HandEvaluator.

Local Open Scope Z_scope.

Definition HIDDEN : string := "??".

(** [c.slice(0, -1)]: everything but the last code unit. *)
Definition slice_init (c : string) : string :=
  String.substring 0 (String.length c - 1) c.

(** [c.slice(-1)]: the last code unit (empty for the empty string). *)
Definition slice_last (c : string) : string :=
  String.substring (String.length c - 1) 1 c.

Definition rank_table : list (string * Z) :=
  [ ("2", 2); ("3", 3); ("4", 4); ("5", 5); ("6", 6); ("7", 7); ("8", 8);
    ("9", 9); ("10", 10); ("J", 11); ("Q", 12); ("K", 13); ("A", 14) ]%string.

Fixpoint table_lookup (rank : string) (t : list (string * Z)) : option Z :=
  match t with
  | [] => None
  | (k, v) :: t' => if String.eqb rank k then Some v else table_lookup rank t'
  end.

(** [map[rank] || 0] *)
Definition normalizeRank (rank : string) : Z :=
  match table_lookup rank rank_table with
  | Some v => v
  | None => 0
  end.

(** [rankCounts[r] = (rankCounts[r] || 0) + 1] on an object with integer
    keys, kept in ascending key order as [Object.values] and
    [Object.keys] enumerate it. *)
Fixpoint bump_rank (r : Z) (m : list (Z * Z)) : list (Z * Z) :=
  match m with
  | [] => [(r, 1)]
  | (k, n) :: m' =>
      if r =? k then (k, n + 1) :: m'
      else if r <? k then (r, 1) :: m
      else (k, n) :: bump_rank r m'
  end.

Definition count_ranks (ranks : list Z) : list (Z * Z) :=
  fold_left (fun m r => bump_rank r m) ranks [].

(** [suitCounts[s] = (suitCounts[s] || 0) + 1] *)
Definition bump_suit (s : string) (m : gmap string Z) : gmap string Z :=
  <[s := default 0 (m !! s) + 1]> m.

Definition count_suits (suits : list string) : gmap string Z :=
  fold_left (fun m s => bump_suit s m) suits ∅.

(** [Math.max(...xs)] for a non-empty list of non-negative numbers. *)
Definition max_of (xs : list Z) : Z := fold_right Z.max 0 xs.

(** [xs.sort((a, b) => b - a)] *)
Fixpoint insert_desc (x : Z) (l : list Z) : list Z :=
  match l with
  | [] => [x]
  | y :: l' => if y <? x then x :: l else y :: insert_desc x l'
  end.

Definition sort_desc (l : list Z) : list Z := fold_right insert_desc [] l.

(** [[...new Set(xs)]]: first occurrences, in insertion order. *)
Fixpoint set_of (seen xs : list Z) : list Z :=
  match xs with
  | [] => []
  | x :: xs' =>
      if existsb (Z.eqb x) seen then set_of seen xs'
      else x :: set_of (x :: seen) xs'
  end.

Definition includes (x : Z) (l : list Z) : bool := existsb (Z.eqb x) l.

(** [sortedRanks.slice(i, i + 5)] *)
Definition slice5 (l : list Z) (i : nat) : list Z := take 5 (drop i l).

(** The body of the loop of [checkStraightDraw] at index [i]. *)
Definition window_hit (l : list Z) (i : nat) : bool :=
  let slice := slice5 l i in
  (4 <=? length slice)%nat &&
  match head slice, last slice with
  | Some mx, Some mn => mx - mn <=? 4
  | _, _ => false
  end.

Definition checkStraightDraw (sortedRanks : list Z) : bool :=
  if (length sortedRanks <? 4)%nat then false
  else if existsb (window_hit sortedRanks) (seq 0 (length sortedRanks - 3))
  then true
  else includes 14 sortedRanks && includes 2 sortedRanks.

(** [Object.keys(rankCounts).find(k => rankCounts[k] === 2) || '0'],
    parsed back to a number. *)
Definition pairRank (rankCounts : list (Z * Z)) : Z :=
  match List.find (fun kv => snd kv =? 2) rankCounts with
  | Some kv => fst kv
  | None => 0
  end.

(** [counts[i] === n], false when [counts[i]] is undefined. *)
Definition count_is (c : option Z) (n : Z) : bool :=
  match c with
  | Some v => v =? n
  | None => false
  end.

Definition evaluate (holeCards communityCards : list string) : Q :=
  let cards :=
    List.filter (fun c => negb (String.eqb c HIDDEN)) (holeCards ++ communityCards) in
  if (length cards <? 2)%nat then 0.3%Q
  else
    let ranks := map (fun c => normalizeRank (slice_init c)) cards in
    let suits := map slice_last cards in
    let rankCounts := count_ranks ranks in
    let counts := sort_desc (map snd rankCounts) in
    let suitCounts := count_suits suits in
    let maxSuit := max_of (map snd (map_to_list suitCounts)) in
    let sortedRanks := sort_desc (set_of [] ranks) in
    let hasStraightDraw := checkStraightDraw sortedRanks in
    let c0 := counts !! 0%nat in
    let c1 := counts !! 1%nat in
    let strength : Q :=
      if count_is c0 4 then 0.95%Q
      else if count_is c0 3 && count_is c1 2 then 0.9%Q
      else if 5 <=? maxSuit then 0.85%Q
      else if hasStraightDraw && (5 <=? length sortedRanks)%nat then 0.8%Q
      else if count_is c0 3 then 0.7%Q
      else if count_is c0 2 && count_is c1 2 then 0.6%Q
      else if count_is c0 2 then
        (if 10 <=? pairRank rankCounts then 0.55%Q else 0.45%Q)
      else
        (if 12 <=? max_of ranks then 0.4%Q else 0.3%Q) in
    let strength := if maxSuit =? 4 then (strength + 0.15)%Q else strength in
    let strength := if hasStraightDraw then (strength + 0.1)%Q else strength in
    Qmin strength 1.0%Q.

End HandEvaluator.

(** ** Shared enumerations *)

(** [PublicState.status] *)
Inductive Status : Type :=
| WAITING | PREFLOP | FLOP | TURN | RIVER | SHOWDOWN.

(** The [action] field of a decision and the [type] argument of [makeAction]. *)
Inductive ActionKind : Type :=
| FOLD | CHECK | CALL | RAISE | ALL_IN.

(** ** Strategy engine *)

Module StrategyEngine.

Import Num.
Local Open Scope Q_scope.

Record StrategyConfig : Type := {
  raiseThreshold : Q;
  callThreshold : Q;
  foldThreshold : Q;
  bluffProbability : Q;
  aggressiveness : Q
}.

Record Stats : Type := {
  wins : nat;
  losses : nat;
  totalHands : nat;
  successfulBluffs : nat;
  failedBluffs : nat
}.

(** The two private fields of the class. *)
Record t : Type := {
  config : StrategyConfig;
  stats : Stats
}.

Definition getDefaultStrategy : StrategyConfig :=
  {| raiseThreshold := 0.6;
     callThreshold := 0.4;
     foldThreshold := 0.3;
     bluffProbability := 0.15;
     aggressiveness := 0.5 |}.

(** [new StrategyEngine()] *)
Definition new : t :=
  {| config := getDefaultStrategy;
     stats := {| wins := 0; losses := 0; totalHands := 0;
                 successfulBluffs := 0; failedBluffs := 0 |} |}.

(** The value returned by [decide]: [amount] is present on RAISE only. *)
Record Decision : Type := {
  action : ActionKind;
  amount : option Q
}.

Definition calculateRaiseAmount (cfg : StrategyConfig)
    (pot chips handStrength currentBet : Q) : Q :=
  let baseBet := pot * 0.5 in
  let aggressiveMultiplier := 1 + aggressiveness cfg * handStrength in
  let raiseAmount := baseBet * aggressiveMultiplier in
  let maxBet := inject_Z (Qfloor (chips * 0.7)) in
  let totalBet := currentBet + Qmin (inject_Z (Qfloor raiseAmount)) maxBet in
  totalBet.

(** [callAmount > 0 ? callAmount / (pot + callAmount) : 0] *)
Definition potOdds (callAmount pot : Q) : ext :=
  if Qltb 0 callAmount then
    if Qeq_bool (pot + callAmount) 0 then PosInf
    else Fin (callAmount / (pot + callAmount))
  else Fin 0.

(** [Math.random() < this.config.bluffProbability], with the drawn number
    [rnd] made explicit. *)
Definition shouldBluff (cfg : StrategyConfig) (rnd : Q) : bool :=
  Qltb rnd (bluffProbability cfg).

Definition effectiveStrength (cfg : StrategyConfig) (rnd handStrength : Q) : Q :=
  if shouldBluff cfg rnd then Qmin (handStrength + 0.3) 1.0 else handStrength.

Definition decide (cfg : StrategyConfig) (rnd : Q)
    (handStrength callAmount pot chips currentBet : Q) (_phase : Status)
    : Decision :=
  let potOdds := potOdds callAmount pot in
  let effectiveStrength := effectiveStrength cfg rnd handStrength in
  if Qeq_bool callAmount 0 then
    if Qgeb effectiveStrength (raiseThreshold cfg) then
      let raiseAmount := calculateRaiseAmount cfg pot chips effectiveStrength currentBet in
      {| action := RAISE; amount := Some raiseAmount |}
    else {| action := CHECK; amount := None |}
  else if Qgeb effectiveStrength (raiseThreshold cfg) then
    if Qltb callAmount (chips * 0.5) then
      let raiseAmount := calculateRaiseAmount cfg pot chips effectiveStrength currentBet in
      {| action := RAISE; amount := Some raiseAmount |}
    else {| action := CALL; amount := None |}
  else if Qgeb effectiveStrength (callThreshold cfg) then
    if ext_ltb potOdds 0.4 || Qltb callAmount (chips * 0.2) then
      {| action := CALL; amount := None |}
    else {| action := FOLD; amount := None |}
  else if Qgeb effectiveStrength (foldThreshold cfg) then
    if ext_ltb potOdds 0.2 && Qltb callAmount (chips * 0.1) then
      {| action := CALL; amount := None |}
    else {| action := FOLD; amount := None |}
  else {| action := FOLD; amount := None |}.

Definition winRate (st : Stats) : Q :=
  if (0 <? totalHands st)%nat
  then inject_Z (Z.of_nat (wins st)) / inject_Z (Z.of_nat (totalHands st))
  else 0.5.

Definition adaptStrategy (e : t) : t :=
  let cfg := config e in
  let winRate := winRate (stats e) in
  if Qltb winRate 0.3 then
    {| config :=
         {| raiseThreshold := Qmin (raiseThreshold cfg + 0.05) 0.8;
            callThreshold := callThreshold cfg;
            foldThreshold := Qmin (foldThreshold cfg + 0.05) 0.5;
            bluffProbability := Qmax (bluffProbability cfg - 0.05) 0.05;
            aggressiveness := aggressiveness cfg |};
       stats := stats e |}
  else if Qltb 0.7 winRate then
    {| config :=
         {| raiseThreshold := Qmax (raiseThreshold cfg - 0.05) 0.4;
            callThreshold := callThreshold cfg;
            foldThreshold := foldThreshold cfg;
            bluffProbability := bluffProbability cfg;
            aggressiveness := Qmin (aggressiveness cfg + 0.1) 1.0 |};
       stats := stats e |}
  else e.

(** The call to [adaptStrategy] at the end is commented out in the source. *)
Definition recordResult (won : bool) (e : t) : t :=
  let st := stats e in
  {| config := config e;
     stats :=
       {| wins := if won then S (wins st) else wins st;
          losses := if won then losses st else S (losses st);
          totalHands := S (totalHands st);
          successfulBluffs := successfulBluffs st;
          failedBluffs := failedBluffs st |} |}.

(** The public operations that change an engine, for talking about
    arbitrary sequences of calls. *)
Inductive Call : Type :=
| CallRecordResult (won : bool)
| CallAdaptStrategy.

Definition call (c : Call) (e : t) : t :=
  match c with
  | CallRecordResult won => recordResult won e
  | CallAdaptStrategy => adaptStrategy e
  end.

Definition calls (cs : list Call) (e : t) : t :=
  fold_left (fun e c => call c e) cs e.

End StrategyEngine.

(** ** Poker agent: the polling controller *)

Module PokerAgent.

Import Num.
Local Open Scope Q_scope.

Inductive Role : Type :=
| SB | BB | D | NoRole.

Record Player : Type := {
  account : string;
  chips : Q;
  bet : Q;
  totalBet : Q;
  holeCards : list string;
  folded : bool;
  allIn : bool;
  role : Role;
  active : bool;
  disconnected : bool;
  ready : bool
}.

Record PublicState : Type := {
  status : Status;
  players : gmap string Player;
  seats : list string;
  dealerIndex : Z;
  currentTurn : Z;
  pot : Q;
  communityCards : list string;
  currentBet : Q;
  minRaise : Q;
  actionLog : list string;
  winnerInfo : option string;
  myAccount : string
}.

(** The mutable fields of the agent that the polling loop reads and
    writes.  The evaluator has no state; the server connection is
    represented by the answers it gives (see [Answers]). *)
Record t : Type := {
  strategy : StrategyEngine.t;
  currentState : option PublicState
}.

(** What the collaborators answer during one poll tick: the state fetch
    at the start of the tick ([None] is a failed fetch), the ready toggle,
    the fetch that follows a toggle, the action submission, and the number
    drawn by [Math.random()]. *)
Record Answers : Type := {
  fetch : option PublicState;
  toggle_ok : bool;
  refetch : option PublicState;
  action_ok : bool;
  random : Q
}.

(** The calls the controller makes, in order. *)
Inductive Event : Type :=
| GetPublicState (ok : bool)
| ToggleReady (ok : bool)
| SubmitAction (type : ActionKind) (amount : option Q) (ok : bool)
| RecordResult (won : bool)
| Evaluate (holeCards communityCards : list string)
| Decide (handStrength callAmount pot chips currentBet : Q) (phase : Status).

(** How an [async] method ends: it returns, or an exception (a rejected
    promise) leaves it. *)
Inductive result (A : Type) : Type :=
| Returned (a : A)
| Thrown.
Arguments Returned {A} a.
Arguments Thrown {A}.

(** A method of the agent: it reads and writes the agent's fields, makes
    calls, and returns or throws. *)
Definition M (A : Type) : Type := t -> result A * t * list Event.

#[export] Instance M_ret : MRet M := fun A a s => (Returned a, s, []).

#[export] Instance M_bind : MBind M := fun A B k m s =>
  match m s with
  | (Returned a, s1, tr1) =>
      match k a s1 with
      | (r, s2, tr2) => (r, s2, tr1 ++ tr2)
      end
  | (Thrown, s1, tr1) => (Thrown, s1, tr1)
  end.

Definition emit (ev : Event) : M unit := fun s => (Returned tt, s, [ev]).
Definition throw {A : Type} : M A := fun s => (Thrown, s, []).
Definition this : M t := fun s => (Returned s, s, []).
Definition assign (f : t -> t) : M unit := fun s => (Returned tt, f s, []).

(** [try { m } catch (e) { }] *)
Definition try_catch (m : M unit) : M unit := fun s =>
  match m s with
  | (_, s1, tr) => (Returned tt, s1, tr)
  end.

(** [this.server.remoteFunction(...)], answered by the collaborator. *)
Definition remote_getPublicState (answer : option PublicState) : M PublicState :=
  match answer with
  | Some st => emit (GetPublicState true);; mret st
  | None => emit (GetPublicState false);; throw
  end.

Definition remote_action (type : ActionKind) (amount : option Q) (ok : bool) : M unit :=
  emit (SubmitAction type amount ok);; if ok then mret tt else throw.

Definition remote_toggleReady (ok : bool) : M unit :=
  emit (ToggleReady ok);; if ok then mret tt else throw.

Definition updateState (answer : option PublicState) : M unit :=
  try_catch (
    st ← remote_getPublicState answer;
    assign (fun a => {| strategy := strategy a; currentState := Some st |})).

Definition makeAction (w : Answers) (type : ActionKind) (amount : option Q) : M unit :=
  try_catch (remote_action type amount (action_ok w)).

Definition toggleReady (w : Answers) : M unit :=
  remote_toggleReady (toggle_ok w).

(** [seats[currentTurn]] *)
Definition seat_at (st : PublicState) : option string :=
  if (currentTurn st <? 0)%Z then None
  else seats st !! Z.to_nat (currentTurn st).

(** [seats[currentTurn] !== myAccount] *)
Definition not_my_turn (st : PublicState) : bool :=
  match seat_at st with
  | Some s => negb (String.eqb s (myAccount st))
  | None => true
  end.

(** Truthiness of [decision.amount]. *)
Definition truthy_amount (amount : option Q) : bool :=
  match amount with
  | Some q => negb (Qeq_bool q 0)
  | None => false
  end.

Definition autonomousDecision (w : Answers) : M unit :=
  a ← this;
  match currentState a with
  | None => mret tt
  | Some st =>
      if not_my_turn st then mret tt
      else
        match players st !! myAccount st with
        | None => mret tt
        | Some me =>
            if folded me || allIn me then mret tt
            else
              let hasHiddenCard :=
                existsb (fun card => String.eqb card HandEvaluator.HIDDEN) (holeCards me) in
              if hasHiddenCard then
                let callAmount := currentBet st - bet me in
                makeAction w (if Qeq_bool callAmount 0 then CHECK else FOLD) None
              else
                emit (Evaluate (holeCards me) (communityCards st));;
                let handStrength :=
                  HandEvaluator.evaluate (holeCards me) (communityCards st) in
                let callAmount := currentBet st - bet me in
                emit (Decide handStrength callAmount (pot st) (chips me)
                        (currentBet st) (status st));;
                let decision :=
                  StrategyEngine.decide (StrategyEngine.config (strategy a)) (random w)
                    handStrength callAmount (pot st) (chips me) (currentBet st)
                    (status st) in
                match StrategyEngine.action decision with
                | RAISE =>
                    if truthy_amount (StrategyEngine.amount decision)
                    then makeAction w RAISE (StrategyEngine.amount decision)
                    else makeAction w RAISE None
                | other => makeAction w other None
                end
        end
  end.

(** [s.includes(sub)] *)
Fixpoint includes (sub s : string) : bool :=
  String.prefix sub s ||
  match s with
  | EmptyString => false
  | String _ s' => includes sub s'
  end.

(** Truthiness of [winnerInfo]: neither [null] nor the empty string. *)
Definition winner_present (st : PublicState) : option string :=
  match winnerInfo st with
  | Some info => if String.eqb info "" then None else Some info
  | None => None
  end.

Definition waiting_or_showdown (s : Status) : bool :=
  match s with
  | WAITING | SHOWDOWN => true
  | _ => false
  end.

(** The callback that [start] installs with [setInterval]: one poll tick. *)
Definition pollTick (w : Answers) : M unit :=
  updateState (fetch w);;
  a ← this;
  match currentState a with
  | None => mret tt
  | Some st =>
      (if waiting_or_showdown (status st) then
         (match status st, winner_present st with
          | SHOWDOWN, Some info =>
              let won := includes (myAccount st) info in
              emit (RecordResult won);;
              assign (fun a =>
                {| strategy := StrategyEngine.recordResult won (strategy a);
                   currentState := currentState a |})
          | _, _ => mret tt
          end);;
         match players st !! myAccount st with
         | Some me =>
             if negb (ready me) then
               toggleReady w;;
               updateState (refetch w)
             else mret tt
         | None => mret tt
         end
       else mret tt);;
      if negb (waiting_or_showdown (status st)) then autonomousDecision w
      else mret tt
  end.

(** Consecutive ticks of the timer, one [Answers] per tick.  A tick that
    throws does not stop the timer; the results of the ticks and their
    traces are collected in order. *)
Fixpoint pollLoop (ws : list Answers) (a : t)
    : t * list (result unit * list Event) :=
  match ws with
  | [] => (a, [])
  | w :: ws' =>
      match pollTick w a with
      | (r, a1, tr) =>
          match pollLoop ws' a1 with
          | (a2, rest) => (a2, (r, tr) :: rest)
          end
      end
  end.

(** [new PokerAgent(...)] *)
Definition new : t :=
  {| strategy := StrategyEngine.new; currentState := None |}.

End PokerAgent.

(** ** The strategy engine's decision over any number arithmetic

    [StrategyEngine] above reads the source's numbers as exact rationals.
    The same two methods are given here over an arbitrary implementation
    of the operations they use, so that a statement about the value of a
    bet can be made for the arithmetic the program really runs on: IEEE
    754 binary64, which rounds every product, sum and quotient. *)

Module Arithmetic.

(** The operations of JavaScript numbers that [decide],
    [calculateRaiseAmount] and [adaptStrategy] use. *)
Record t : Type := {
  num : Type;
  lit : Q -> num;              (* a decimal literal of the source *)
  add : num -> num -> num;     (* a + b *)
  sub : num -> num -> num;     (* a - b *)
  mul : num -> num -> num;     (* a * b *)
  div : num -> num -> num;     (* a / b *)
  floor : num -> num;          (* Math.floor(a) *)
  min : num -> num -> num;     (* Math.min(a, b) *)
  max : num -> num -> num;     (* Math.max(a, b) *)
  ltb : num -> num -> bool;    (* a < b *)
  leb : num -> num -> bool;    (* a <= b *)
  eqb : num -> num -> bool     (* a === b *)
}.

(** Exact rationals, the arithmetic of [StrategyEngine]. *)
Definition exact : t :=
  {| num := Q;
     lit := fun q => q;
     add := Qplus;
     sub := Qminus;
     mul := Qmult;
     div := Qdiv;
     floor := fun q => inject_Z (Qfloor q);
     min := Qmin;
     max := Qmax;
     ltb := Num.Qltb;
     leb := Qle_bool;
     eqb := Qeq_bool |}.

(** An integer as a binary64 number (exact below 2^53). *)
Definition float_of_Z (z : Z) : float :=
  match z with
  | Z0 => PrimFloat.of_uint63 0
  | Zpos _ => PrimFloat.of_uint63 (Uint63.of_Z z)
  | Zneg p => PrimFloat.opp (PrimFloat.of_uint63 (Uint63.of_Z (Zpos p)))
  end.

(** A decimal literal as the parser reads it: the binary64 number nearest
    to the decimal (the quotient of two exact integers, correctly
    rounded). *)
Definition float_of_literal (q : Q) : float :=
  PrimFloat.div (float_of_Z (Qnum q)) (float_of_Z (Zpos (Qden q))).

(** [Math.floor] on binary64: a number with a non-negative exponent is an
    integer already; otherwise the mantissa is shifted and, for a negative
    number with a fractional part, rounded away from zero.  Infinities and
    NaN are returned as they are. *)
Definition float_floor (x : float) : float :=
  match Prim2SF x with
  | S754_finite s m e =>
      if (0 <=? e)%Z then x
      else
        let q := Z.shiftr (Zpos m) (- e) in
        let whole := (Z.shiftl q (- e) =? Zpos m)%Z in
        if s then (if whole then float_of_Z (- q) else float_of_Z (- q - 1))
        else float_of_Z q
  | _ => x
  end.

(** [Math.min] on binary64: NaN if the two numbers are unordered, and
    [-0] before [+0]. *)
Definition float_min (a b : float) : float :=
  if PrimFloat.ltb a b then a
  else if PrimFloat.ltb b a then b
  else if PrimFloat.eqb a b then
    match PrimFloat.classify a with
    | NZero => a
    | _ => b
    end
  else PrimFloat.nan.

(** [Math.max] on binary64: NaN if the two numbers are unordered, and
    [+0] before [-0]. *)
Definition float_max (a b : float) : float :=
  if PrimFloat.ltb a b then b
  else if PrimFloat.ltb b a then a
  else if PrimFloat.eqb a b then
    match PrimFloat.classify a with
    | PZero => a
    | _ => b
    end
  else PrimFloat.nan.

(** IEEE 754 binary64, the arithmetic of the program. *)
Definition double : t :=
  {| num := float;
     lit := float_of_literal;
     add := PrimFloat.add;
     sub := PrimFloat.sub;
     mul := PrimFloat.mul;
     div := PrimFloat.div;
     floor := float_floor;
     min := float_min;
     max := float_max;
     ltb := PrimFloat.ltb;
     leb := PrimFloat.leb;
     eqb := PrimFloat.eqb |}.

End Arithmetic.

Module EngineOver.

Import Arithmetic.

Section Over.

Variable N : Arithmetic.t.

Record StrategyConfig : Type := {
  raiseThreshold : num N;
  callThreshold : num N;
  foldThreshold : num N;
  bluffProbability : num N;
  aggressiveness : num N
}.

Record Decision : Type := {
  action : ActionKind;
  amount : option (num N)
}.

Definition getDefaultStrategy : StrategyConfig :=
  {| raiseThreshold := lit N 0.6;
     callThreshold := lit N 0.4;
     foldThreshold := lit N 0.3;
     bluffProbability := lit N 0.15;
     aggressiveness := lit N 0.5 |}.

Definition calculateRaiseAmount (cfg : StrategyConfig)
    (pot chips handStrength currentBet : num N) : num N :=
  let baseBet := mul N pot (lit N 0.5) in
  let aggressiveMultiplier := add N (lit N 1) (mul N (aggressiveness cfg) handStrength) in
  let raiseAmount := mul N baseBet aggressiveMultiplier in
  let maxBet := floor N (mul N chips (lit N 0.7)) in
  let totalBet := add N currentBet (min N (floor N raiseAmount) maxBet) in
  totalBet.

(** The effective strength of a decision, [rnd] being the number drawn by
    [Math.random()]. *)
Definition effectiveStrength (cfg : StrategyConfig) (rnd handStrength : num N) : num N :=
  if ltb N rnd (bluffProbability cfg)
  then min N (add N handStrength (lit N 0.3)) (lit N 1.0)
  else handStrength.

Definition decide (cfg : StrategyConfig) (rnd : num N)
    (handStrength callAmount pot chips currentBet : num N) (_phase : Status)
    : Decision :=
  let potOdds :=
    if ltb N (lit N 0) callAmount then div N callAmount (add N pot callAmount)
    else lit N 0 in
  let effectiveStrength := effectiveStrength cfg rnd handStrength in
  if eqb N callAmount (lit N 0) then
    if leb N (raiseThreshold cfg) effectiveStrength then
      let raiseAmount := calculateRaiseAmount cfg pot chips effectiveStrength currentBet in
      {| action := RAISE; amount := Some raiseAmount |}
    else {| action := CHECK; amount := None |}
  else if leb N (raiseThreshold cfg) effectiveStrength then
    if ltb N callAmount (mul N chips (lit N 0.5)) then
      let raiseAmount := calculateRaiseAmount cfg pot chips effectiveStrength currentBet in
      {| action := RAISE; amount := Some raiseAmount |}
    else {| action := CALL; amount := None |}
  else if leb N (callThreshold cfg) effectiveStrength then
    if ltb N potOdds (lit N 0.4) || ltb N callAmount (mul N chips (lit N 0.2)) then
      {| action := CALL; amount := None |}
    else {| action := FOLD; amount := None |}
  else if leb N (foldThreshold cfg) effectiveStrength then
    if ltb N potOdds (lit N 0.2) && ltb N callAmount (mul N chips (lit N 0.1)) then
      {| action := CALL; amount := None |}
    else {| action := FOLD; amount := None |}
  else {| action := FOLD; amount := None |}.

(** The win rate from the integer counters. *)
Definition winRate (st : StrategyEngine.Stats) : num N :=
  if (0 <? StrategyEngine.totalHands st)%nat
  then div N (lit N (inject_Z (Z.of_nat (StrategyEngine.wins st))))
             (lit N (inject_Z (Z.of_nat (StrategyEngine.totalHands st))))
  else lit N 0.5.

Definition adaptStrategy (st : StrategyEngine.Stats) (cfg : StrategyConfig)
    : StrategyConfig :=
  let winRate := winRate st in
  if ltb N winRate (lit N 0.3) then
    {| raiseThreshold := min N (add N (raiseThreshold cfg) (lit N 0.05)) (lit N 0.8);
       callThreshold := callThreshold cfg;
       foldThreshold := min N (add N (foldThreshold cfg) (lit N 0.05)) (lit N 0.5);
       bluffProbability := max N (sub N (bluffProbability cfg) (lit N 0.05)) (lit N 0.05);
       aggressiveness := aggressiveness cfg |}
  else if ltb N (lit N 0.7) winRate then
    {| raiseThreshold := max N (sub N (raiseThreshold cfg) (lit N 0.05)) (lit N 0.4);
       callThreshold := callThreshold cfg;
       foldThreshold := foldThreshold cfg;
       bluffProbability := bluffProbability cfg;
       aggressiveness := min N (add N (aggressiveness cfg) (lit N 0.1)) (lit N 1.0) |}
  else cfg.

(** [n] calls to [adaptStrategy] in a row. *)
Definition adapt_times (n : nat) (st : StrategyEngine.Stats) (cfg : StrategyConfig)
    : StrategyConfig :=
  Nat.iter n (adaptStrategy st) cfg.

End Over.

Arguments raiseThreshold {N} _.
Arguments callThreshold {N} _.
Arguments foldThreshold {N} _.
Arguments bluffProbability {N} _.
Arguments aggressiveness {N} _.
Arguments action {N} _.
Arguments amount {N} _.

(** A configuration of [StrategyEngine] as one over exact rationals. *)
Definition of_config (cfg : StrategyEngine.StrategyConfig) : StrategyConfig exact :=
  {| raiseThreshold := StrategyEngine.raiseThreshold cfg : num exact;
     callThreshold := StrategyEngine.callThreshold cfg;
     foldThreshold := StrategyEngine.foldThreshold cfg;
     bluffProbability := StrategyEngine.bluffProbability cfg;
     aggressiveness := StrategyEngine.aggressiveness cfg |}.

End EngineOver.

(** ** Vocabulary for the controller's traces *)

Module Trace.

Import PokerAgent.

(** The agent after a fetch attempt: the snapshot is replaced when the
    fetch succeeds and kept when it fails. *)
Definition after_fetch (answer : option PublicState) (a : t) : t :=
  match answer with
  | Some st => {| strategy := strategy a; currentState := Some st |}
  | None => a
  end.

Definition fetched (answer : option PublicState) : bool :=
  match answer with
  | Some _ => true
  | None => false
  end.

Definition is_recordResult (ev : Event) : bool :=
  match ev with
  | RecordResult _ => true
  | _ => false
  end.

Definition is_all_in_submission (ev : Event) : bool :=
  match ev with
  | SubmitAction ALL_IN _ _ => true
  | _ => false
  end.

(** The events of a run of ticks, in order. *)
Definition events (rs : list (result unit * list Event)) : list Event :=
  concat (map snd rs).

(** The tick fetches a showdown snapshot that carries winner
    information. *)
Definition fetches_showdown (w : Answers) : bool :=
  match fetch w with
  | Some st =>
      match status st, winner_present st with
      | SHOWDOWN, Some _ => true
      | _, _ => false
      end
  | None => false
  end.

(** The same answers with another answer to the first fetch. *)
Definition with_fetch (answer : option PublicState) (w : Answers) : Answers :=
  {| fetch := answer;
     toggle_ok := toggle_ok w;
     refetch := refetch w;
     action_ok := action_ok w;
     random := random w |}.

End Trace.

(** ** Concrete snapshots used in the examples *)

Module Sample.

Import PokerAgent.
Local Open Scope Q_scope.

Definition alice (cards : list string) (is_ready : bool) : Player :=
  {| account := "alice"; chips := 1000; bet := 0; totalBet := 0;
     holeCards := cards; folded := false; allIn := false; role := NoRole;
     active := true; disconnected := false; ready := is_ready |}.

Definition snapshot (phase : Status) (me : Player) (community : list string)
    (winner : option string) : PublicState :=
  {| status := phase;
     players := {[ "alice" := me ]};
     seats := ["alice"; "bob"];
     dealerIndex := 1;
     currentTurn := 0;
     pot := 100;
     communityCards := community;
     currentBet := 0;
     minRaise := 20;
     actionLog := [];
     winnerInfo := winner;
     myAccount := "alice" |}.

(** A showdown that this agent won; the agent is already marked ready. *)
Definition showdown_won : PublicState :=
  snapshot SHOWDOWN (alice ["AS"; "AH"] true) ["3D"; "7C"; "9H"; "JD"; "QC"]
    (Some "alice").

(** The lobby, this agent not yet ready. *)
Definition lobby : PublicState :=
  snapshot WAITING (alice [] false) [] None.

(** The flop, this agent to act with a pair of aces and nothing to call. *)
Definition flop_to_act : PublicState :=
  snapshot FLOP (alice ["AS"; "AH"] true) ["3D"; "7C"; "9H"] None.

Definition answers (first : option PublicState) (toggle : bool) : Answers :=
  {| fetch := first; toggle_ok := toggle; refetch := first;
     action_ok := true; random := 0.5 |}.

(** An agent that fetched [st] on an earlier tick. *)
Definition holding (st : PublicState) : t :=
  {| strategy := StrategyEngine.new; currentState := Some st |}.

End Sample.

(** ** Predicates of the design document *)

Module Design.

Import StrategyEngine.
Local Open Scope Q_scope.

(** The bounds that adaptive learning is meant to respect. *)
Definition config_bounded (cfg : StrategyConfig) : Prop :=
  0.4 <= raiseThreshold cfg /\ raiseThreshold cfg <= 0.8 /\
  foldThreshold cfg <= 0.5 /\
  0.05 <= bluffProbability cfg /\
  aggressiveness cfg <= 1.

(** The raise size as the design document words it, from the raw strength:
    [currentBet + min(floor(0.5*pot*(1 + aggressiveness*handStrength)),
    floor(0.7*chips))]. *)
Definition documented_raise (cfg : StrategyConfig)
    (pot chips handStrength currentBet : Q) : Q :=
  currentBet +
  Qmin (inject_Z (Qfloor (0.5 * pot * (1 + aggressiveness cfg * handStrength))))
       (inject_Z (Qfloor (0.7 * chips))).

(** The straight condition as the design document words it: some run of
    at least four of the distinct sorted ranks spans at most 4, or the
    five ranks of the wheel A-2-3-4-5 are all present. *)
Definition min_of (xs : list Z) : Z :=
  match xs with
  | [] => 0%Z
  | x :: xs' => fold_right Z.min x xs'
  end.

Definition runs (l : list Z) : list (list Z) :=
  flat_map (fun i => map (fun n => take n (drop i l)) (seq 4 (length l)))
           (seq 0 (length l)).

Definition narrow_run (run : list Z) : bool :=
  (4 <=? length run)%nat &&
  (HandEvaluator.max_of run - min_of run <=? 4)%Z.

Definition wheel_present (l : list Z) : bool :=
  forallb (fun r => HandEvaluator.includes r l) [14; 2; 3; 4; 5]%Z.

Definition documented_straight (l : list Z) : bool :=
  existsb narrow_run (runs l) || wheel_present l.

End Design.

(** ** Vocabulary for the further properties *)

Module Invariants.

Import StrategyEngine.

(** What every sequence of calls keeps true of the counters: each hand is
    a win or a loss, and the bluff counters are never written. *)
Definition counters_consistent (st : Stats) : Prop :=
  (wins st + losses st = totalHands st)%nat /\
  successfulBluffs st = 0%nat /\ failedBluffs st = 0%nat.

(** [n] calls to [adaptStrategy] in a row. *)
Definition adapt_times (n : nat) (e : t) : t :=
  calls (repeat CallAdaptStrategy n) e.

Definition is_recordResult_call (c : Call) : bool :=
  match c with
  | CallRecordResult _ => true
  | CallAdaptStrategy => false
  end.

End Invariants.

Module Tick.

Import PokerAgent Trace.

Definition is_submission (ev : Event) : bool :=
  match ev with
  | SubmitAction _ _ _ => true
  | _ => false
  end.

Definition is_toggle (ev : Event) : bool :=
  match ev with
  | ToggleReady _ => true
  | _ => false
  end.

Definition is_fetch (ev : Event) : bool :=
  match ev with
  | GetPublicState _ => true
  | _ => false
  end.

(** A call to the evaluator or to the strategy engine's [decide]. *)
Definition is_thinking (ev : Event) : bool :=
  match ev with
  | Evaluate _ _ | Decide _ _ _ _ _ _ => true
  | _ => false
  end.

Definition count (p : Event -> bool) (tr : list Event) : nat :=
  length (List.filter p tr).

(** The snapshot the agent holds once the first fetch of the tick has
    been attempted. *)
Definition held (w : Answers) (a : t) : option PublicState :=
  currentState (after_fetch (fetch w) a).

(** The condition under which the tick toggles the ready flag: lobby or
    showdown, this agent present and not marked ready. *)
Definition wants_ready (st : PublicState) : bool :=
  waiting_or_showdown (status st) &&
  match players st !! myAccount st with
  | Some me => negb (ready me)
  | None => false
  end.

(** The result a tick records for a snapshot: [Some won] at a showdown
    whose winner information is a non-empty string, [None] otherwise. *)
Definition recorded (st : PublicState) : option bool :=
  match status st, winner_present st with
  | SHOWDOWN, Some info => Some (includes (myAccount st) info)
  | _, _ => None
  end.

(** The player record on which [autonomousDecision] goes on to act: it is
    this agent's turn, the agent is seated, and neither folded nor all-in. *)
Definition to_act (st : PublicState) : option Player :=
  if not_my_turn st then None
  else
    match players st !! myAccount st with
    | Some me => if folded me || allIn me then None else Some me
    | None => None
    end.

Definition has_hidden_card (me : Player) : bool :=
  existsb (fun card => String.eqb card HandEvaluator.HIDDEN) (holeCards me).

(** The same answers with another outcome for the action submission. *)
Definition with_action_ok (ok : bool) (w : Answers) : Answers :=
  {| fetch := fetch w;
     toggle_ok := toggle_ok w;
     refetch := refetch w;
     action_ok := ok;
     random := random w |}.

End Tick.

Module Cards.

Import HandEvaluator.

(** The cards the evaluator looks at: those that are not the hidden
    sentinel. *)
Definition visible_cards (cards : list string) : list string :=
  List.filter (fun c => negb (String.eqb c HIDDEN)) cards.

(** The rank the evaluator reads off a card. *)
Definition rank_of (card : string) : Z := normalizeRank (slice_init card).

(** The ranks of the visible cards of a hand. *)
Definition ranks_of (holeCards communityCards : list string) : list Z :=
  map rank_of (visible_cards (holeCards ++ communityCards)).

(** Strictly descending, as the sorted distinct ranks are. *)
Fixpoint strictly_desc (l : list Z) : Prop :=
  match l with
  | [] => True
  | x :: l' => List.Forall (fun y => (y < x)%Z) l' /\ strictly_desc l'
  end.

(** [rankCounts[k] || 0] on the rank-count object. *)
Fixpoint count_at (k : Z) (m : list (Z * Z)) : Z :=
  match m with
  | [] => 0%Z
  | (k0, n) :: m' => if (k =? k0)%Z then n else count_at k m'
  end.

(** The keys of the rank-count object come in strictly ascending order. *)
Fixpoint keys_ascending (m : list (Z * Z)) : Prop :=
  match m with
  | [] => True
  | (k, _) :: m' => List.Forall (fun kv => (k < fst kv)%Z) m' /\ keys_ascending m'
  end.

(** How many of the ranks equal [k]. *)
Definition occurrences (k : Z) (ranks : list Z) : Z :=
  Z.of_nat (count_occ Z.eq_dec ranks k).

(** The suits of the visible cards of a hand, and how many equal [s]. *)
Definition suits_of (holeCards communityCards : list string) : list string :=
  map slice_last (visible_cards (holeCards ++ communityCards)).

Definition suit_occurrences (s : string) (suits : list string) : Z :=
  Z.of_nat (count_occ String.string_dec suits s).

End Cards.

(** ** Starting and stopping the loop *)

Module Lifecycle.

(** The runtime's interval timers: the handles that are still scheduled
    and the next handle [setInterval] will hand out. *)
Record Timers : Type := {
  running : list nat;
  next_handle : nat
}.

(** The two fields of the agent that [start] and [stop] write. *)
Record t : Type := {
  pollInterval : option nat;
  isActive : bool
}.

Definition setInterval (rt : Timers) : nat * Timers :=
  (next_handle rt,
   {| running := next_handle rt :: running rt;
      next_handle := S (next_handle rt) |}).

Definition clearInterval (h : nat) (rt : Timers) : Timers :=
  {| running := List.filter (fun x => negb (x =? h)%nat) (running rt);
     next_handle := next_handle rt |}.

(** [this.pollInterval = setInterval(...)] *)
Definition start (s : t * Timers) : t * Timers :=
  let '(a, rt) := s in
  let '(h, rt') := setInterval rt in
  ({| pollInterval := Some h; isActive := isActive a |}, rt').

Definition stop (s : t * Timers) : t * Timers :=
  let '(a, rt) := s in
  match pollInterval a with
  | Some h =>
      ({| pollInterval := None; isActive := false |}, clearInterval h rt)
  | None => (a, rt)
  end.

(** Every scheduled handle was handed out earlier. *)
Definition well_formed (rt : Timers) : Prop :=
  List.Forall (fun h => (h < next_handle rt)%nat) (running rt).

End Lifecycle.

(** * Properties *)

(** ** Comparisons *)

Section Comparisons.

Import Num.
Local Open Scope Q_scope.

Lemma Qltb_lt (a b : Q) : Qltb a b = true <-> a < b.
Proof.
  unfold Qltb. rewrite negb_true_iff, <- not_true_iff_false, Qle_bool_iff.
  split; [apply Qnot_le_lt | apply Qlt_not_le].
Qed.

Lemma Qltb_ge (a b : Q) : Qltb a b = false <-> b <= a.
Proof.
  unfold Qltb. rewrite negb_false_iff. apply Qle_bool_iff.
Qed.

Lemma Qgeb_ge (a b : Q) : Qgeb a b = true <-> b <= a.
Proof. apply Qle_bool_iff. Qed.

Lemma Qgeb_lt (a b : Q) : Qgeb a b = false <-> a < b.
Proof.
  unfold Qgeb. rewrite <- not_true_iff_false, Qle_bool_iff.
  split; [apply Qnot_le_lt | apply Qlt_not_le].
Qed.

Lemma ext_ltb_ge (x : ext) (c : Q) : ext_ge x c -> ext_ltb x c = false.
Proof.
  destruct x as [q|]; simpl; [|reflexivity].
  intros H. now apply Qltb_ge.
Qed.

Lemma Qfloor_nonneg (x : Q) : 0 <= x -> (0 <= Qfloor x)%Z.
Proof.
  intros H. change 0%Z with (Qfloor 0). now apply Qfloor_resp_le.
Qed.

End Comparisons.

(** ** Strategy engine *)

Section StrategyFacts.

Import Num StrategyEngine Design.
Local Open Scope Q_scope.

Lemma calculateRaiseAmount_documented cfg pot chips strength currentBet :
  calculateRaiseAmount cfg pot chips strength currentBet
  == documented_raise cfg pot chips strength currentBet.
Proof.
  unfold calculateRaiseAmount, documented_raise.
  replace (Qfloor (pot * 0.5 * (1 + aggressiveness cfg * strength)))
    with (Qfloor (0.5 * pot * (1 + aggressiveness cfg * strength)))
    by (apply Qfloor_comp; ring).
  replace (Qfloor (chips * 0.7)) with (Qfloor (0.7 * chips))
    by (apply Qfloor_comp; ring).
  reflexivity.
Qed.

Lemma effectiveStrength_no_bluff cfg rnd hs :
  shouldBluff cfg rnd = false -> effectiveStrength cfg rnd hs = hs.
Proof. unfold effectiveStrength. now intros ->. Qed.

Lemma effectiveStrength_bluff cfg rnd hs :
  shouldBluff cfg rnd = true -> effectiveStrength cfg rnd hs = Qmin (hs + 0.3) 1.0.
Proof. unfold effectiveStrength. now intros ->. Qed.

(** The bluff never lowers a strength that is at most 1. *)
Lemma effectiveStrength_ge cfg rnd hs :
  hs <= 1 -> hs <= effectiveStrength cfg rnd hs.
Proof.
  intros H. unfold effectiveStrength. destruct (shouldBluff cfg rnd).
  - apply Q.min_glb; lra.
  - lra.
Qed.

Lemma effectiveStrength_nonneg cfg rnd hs :
  0 <= hs -> 0 <= effectiveStrength cfg rnd hs.
Proof.
  intros H. unfold effectiveStrength. destruct (shouldBluff cfg rnd).
  - apply Q.min_glb; lra.
  - lra.
Qed.

(** Every RAISE is sized by [calculateRaiseAmount] on the effective
    strength. *)
Lemma decide_raise_inv cfg rnd hs ca pot chips cb ph :
  action (decide cfg rnd hs ca pot chips cb ph) = RAISE ->
  amount (decide cfg rnd hs ca pot chips cb ph)
  = Some (calculateRaiseAmount cfg pot chips (effectiveStrength cfg rnd hs) cb).
Proof.
  unfold decide.
  repeat match goal with
         | |- context [if ?b then _ else _] => destruct b
         end; simpl; intros H; try discriminate H; reflexivity.
Qed.

(** C6, amended: for every call with something to call whose effective
    strength (the raw strength, or [min(handStrength + 0.3, 1)] when the
    draw bluffs) is below both the raise threshold and the call
    threshold, the result is FOLD as soon as the effective strength is
    below the fold threshold, or [potOdds >= 0.2], or
    [callAmount >= 0.1*chips].  With [potOdds >= 0.2] and
    [callAmount >= 0.1*chips], as in the claim, FOLD therefore holds for
    every draw that leaves the effective strength below those two
    thresholds, bluffs included. *)
Theorem decide_fold_below_call cfg rnd hs ca pot chips cb ph :
  ~ ca == 0 ->
  effectiveStrength cfg rnd hs < raiseThreshold cfg ->
  effectiveStrength cfg rnd hs < callThreshold cfg ->
  effectiveStrength cfg rnd hs < foldThreshold cfg \/
  ext_ge (potOdds ca pot) 0.2 \/ chips * 0.1 <= ca ->
  decide cfg rnd hs ca pot chips cb ph = {| action := FOLD; amount := None |}.
Proof.
  intros Hca Hr Hc Hcond. unfold decide.
  destruct (Qeq_bool ca 0) eqn:E0.
  { apply Qeq_bool_iff in E0. contradiction. }
  apply Qgeb_lt in Hr, Hc. rewrite Hr, Hc.
  destruct (Qgeb _ (foldThreshold cfg)) eqn:Ef; [|reflexivity].
  destruct Hcond as [Hf | [Ho | Hch]].
  - apply Qgeb_lt in Hf. congruence.
  - now rewrite (ext_ltb_ge _ _ Ho).
  - apply Qltb_ge in Hch. rewrite Hch, andb_false_r. reflexivity.
Qed.

End StrategyFacts.

Section StrategyClaims.

Import Num StrategyEngine Design.
Local Open Scope Q_scope.

(** C1, as stated, fails.  With the default configuration, a draw that
    bluffs, strength 0.75, nothing to call, pot 100 and 1000 chips,
    [decide] raises to 75: the size is computed from the bluff-adjusted
    strength 1.0, whereas the documented formula on the raw strength
    gives 68. *)
Lemma decide_raise_size_counterexample :
  let d := decide getDefaultStrategy 0 0.75 0 100 1000 0 FLOP in
  shouldBluff getDefaultStrategy 0 = true /\
  action d = RAISE /\
  amount d = Some (calculateRaiseAmount getDefaultStrategy 100 1000 1.0 0) /\
  calculateRaiseAmount getDefaultStrategy 100 1000 1.0 0 == 75 /\
  documented_raise getDefaultStrategy 100 1000 0.75 0 == 68 /\
  ~ (exists a, amount d = Some a /\
               a == documented_raise getDefaultStrategy 100 1000 0.75 0).
Proof.
  cbv zeta. repeat split; try reflexivity.
  intros (a & Ha & Heq). vm_compute in Ha. injection Ha as <-.
  vm_compute in Heq. discriminate Heq.
Qed.

(** C6, as stated, fails.  Default configuration, strength 0.25 (below
    the fold threshold 0.3), 50 to call into a pot of 100 (pot odds 1/3)
    with 100 chips: when the draw bluffs, the decision is taken on 0.55
    and is CALL. *)
Lemma decide_weak_hand_counterexample :
  0.25 < foldThreshold getDefaultStrategy /\
  ext_ge (potOdds 50 100) 0.2 /\
  0.1 * 100 <= 50 /\ 0 < 50 /\
  action (decide getDefaultStrategy 0 0.25 50 100 100 0 FLOP) = CALL.
Proof.
  repeat split; vm_compute; congruence.
Qed.

(** The same hypotheses also fail to give FOLD without any bluff when the
    thresholds are out of order (raise threshold below the fold
    threshold). *)
Example decide_weak_hand_incoherent_config :
  let cfg := {| raiseThreshold := 0.2; callThreshold := 0.4;
                foldThreshold := 0.3; bluffProbability := 0.15;
                aggressiveness := 0.5 |} in
  shouldBluff cfg 0.5 = false /\
  action (decide cfg 0.5 0.25 50 100 100 0 FLOP) = CALL.
Proof. split; reflexivity. Qed.

Lemma decide_fold_below_call_witness :
  decide getDefaultStrategy 0 0.05 50 100 100 0 FLOP
  = {| action := FOLD; amount := None |}.
Proof.
  apply (decide_fold_below_call getDefaultStrategy 0 0.05 50 100 100 0 FLOP).
  - vm_compute. discriminate.
  - vm_compute. reflexivity.
  - vm_compute. reflexivity.
  - right. left. vm_compute. discriminate.
Defined.

End StrategyClaims.

(** ** The size of a raise in the program's arithmetic *)

Section SizingClaims.

Import Arithmetic EngineOver.

(** C1, amended: whenever [decide] returns RAISE, the amount is
    [currentBet + min(floor(pot*0.5*(1 + aggressiveness*e)), floor(chips*0.7))]
    computed with the program's own operations, whatever their rounding,
    where [e] is the effective strength of that decision: the raw
    strength when the draw does not bluff, [min(handStrength + 0.3, 1)]
    when it does.  On a draw that does not bluff this is the formula of
    the claim; on a draw that bluffs the adjusted strength sizes the
    bet. *)
Theorem raise_size_follows_effective_strength (N : Arithmetic.t)
    (cfg : StrategyConfig N) (rnd hs ca pot chips cb : num N) (ph : Status) :
  action (decide N cfg rnd hs ca pot chips cb ph) = RAISE ->
  amount (decide N cfg rnd hs ca pot chips cb ph) =
  Some
    (let e :=
       if ltb N rnd (bluffProbability cfg)
       then min N (add N hs (lit N 0.3)) (lit N 1.0)
       else hs in
     add N cb
       (min N
          (floor N (mul N (mul N pot (lit N 0.5))
                      (add N (lit N 1) (mul N (aggressiveness cfg) e))))
          (floor N (mul N chips (lit N 0.7))))).
Proof.
  unfold decide, calculateRaiseAmount, effectiveStrength.
  repeat match goal with
         | |- context [if ?b then _ else _] => destruct b
         end; simpl; intros H; try discriminate H; reflexivity.
Qed.

Lemma raise_size_follows_effective_strength_witness :
  let N := double in
  let cfg := getDefaultStrategy N in
  amount (decide N cfg (lit N 0.5) (lit N 0.75) (lit N 0) (lit N 100000)
            (lit N 700) (lit N 20) FLOP) =
  Some
    (let e :=
       if ltb N (lit N 0.5) (bluffProbability cfg)
       then min N (add N (lit N 0.75) (lit N 0.3)) (lit N 1.0)
       else lit N 0.75 in
     add N (lit N 20)
       (min N
          (floor N (mul N (mul N (lit N 100000) (lit N 0.5))
                      (add N (lit N 1) (mul N (aggressiveness cfg) e))))
          (floor N (mul N (lit N 700) (lit N 0.7))))).
Proof.
  intros N cfg.
  apply (raise_size_follows_effective_strength N cfg (lit N 0.5) (lit N 0.75)
           (lit N 0) (lit N 100000) (lit N 700) (lit N 20) FLOP).
  vm_compute. reflexivity.
Defined.

(** Over exact rationals [EngineOver.decide] is [StrategyEngine.decide],
    wherever the pot-odds quotient has a denominator. *)
Lemma decide_over_exact cfg rnd hs ca pot chips cb ph :
  ~ (pot + ca == 0)%Q ->
  action (decide exact (of_config cfg) rnd hs ca pot chips cb ph) =
  StrategyEngine.action (StrategyEngine.decide cfg rnd hs ca pot chips cb ph) /\
  amount (decide exact (of_config cfg) rnd hs ca pot chips cb ph) =
  StrategyEngine.amount (StrategyEngine.decide cfg rnd hs ca pot chips cb ph).
Proof.
  intros Hden.
  assert (Hz : Qeq_bool (pot + ca) 0 = false).
  { destruct (Qeq_bool (pot + ca) 0) eqn:E; [|reflexivity].
    apply Qeq_bool_iff in E. contradiction. }
  unfold decide, StrategyEngine.decide, StrategyEngine.potOdds,
    effectiveStrength, StrategyEngine.effectiveStrength, StrategyEngine.shouldBluff,
    Num.Qgeb.
  simpl. rewrite Hz.
  destruct (Num.Qltb 0 ca); simpl;
    repeat match goal with
           | |- context [if ?b then _ else _] => destruct b
           end; simpl; split; reflexivity.
Qed.

(** The rounding shows in the cap.  With 700 chips the program computes
    [floor(700 * 0.7) = 489], and with 90 chips [floor(90 * 0.7) = 62],
    where exact arithmetic gives 490 and 63; the raise below is capped,
    so the amounts are [20 + 489] and [20 + 62]. *)
Example raise_cap_in_doubles :
  let N := double in
  amount (decide N (getDefaultStrategy N) (lit N 0.5) (lit N 0.75) (lit N 0)
            (lit N 100000) (lit N 700) (lit N 20) FLOP) = Some (lit N 509) /\
  amount (decide N (getDefaultStrategy N) (lit N 0.5) (lit N 0.75) (lit N 0)
            (lit N 100000) (lit N 90) (lit N 20) FLOP) = Some (lit N 82) /\
  StrategyEngine.amount
    (StrategyEngine.decide StrategyEngine.getDefaultStrategy 0.5 0.75 0 100000 700 20 FLOP)
  = Some 510%Q.
Proof. cbv zeta. repeat split; vm_compute; reflexivity. Qed.

(** The counterexample to the raw-strength formula, in the program's
    arithmetic: default configuration, a draw that bluffs, strength 0.75,
    pot 100, 1000 chips.  The amount is 75; the formula on the raw
    strength gives 68. *)
Example raise_size_bluff_in_doubles :
  let N := double in
  let cfg := getDefaultStrategy N in
  decide N cfg (lit N 0) (lit N 0.75) (lit N 0) (lit N 100) (lit N 1000) (lit N 0) FLOP
  = {| action := RAISE; amount := Some (lit N 75) |} /\
  calculateRaiseAmount N cfg (lit N 100) (lit N 1000) (lit N 0.75) (lit N 0) = lit N 68.
Proof. cbv zeta. split; vm_compute; reflexivity. Qed.

End SizingClaims.


Section FreePlayAndLearning.

Import Num StrategyEngine Design.
Local Open Scope Q_scope.

(** The capped raise never goes below the current bet when pot, chips,
    strength and aggressiveness are non-negative. *)
Lemma calculateRaiseAmount_ge_currentBet cfg pot chips strength cb :
  0 <= aggressiveness cfg -> 0 <= strength -> 0 <= pot -> 0 <= chips ->
  cb <= calculateRaiseAmount cfg pot chips strength cb.
Proof.
  intros Ha Hs Hp Hc. unfold calculateRaiseAmount.
  assert (H0 : 0 <= Qmin (inject_Z (Qfloor (pot * 0.5 * (1 + aggressiveness cfg * strength))))
                     (inject_Z (Qfloor (chips * 0.7)))).
  { apply Q.min_glb; change 0 with (inject_Z 0); rewrite <- Zle_Qle;
      apply Qfloor_nonneg.
    - apply Qmult_le_0_compat; [lra|].
      assert (0 <= aggressiveness cfg * strength) by now apply Qmult_le_0_compat.
      lra.
    - lra. }
  lra.
Qed.

(** C7: nothing to call, a strength in [0,1], non-negative pot, chips and
    current bet, and a configuration whose aggressiveness is in its
    documented range (non-negative).  If the raw strength reaches the
    raise threshold the result is RAISE with an amount of at least the
    current bet, whatever the bluff draw; if the effective strength stays
    below the raise threshold the result is CHECK. *)
Theorem decide_free_play cfg rnd hs ca pot chips cb ph :
  ca == 0 ->
  0 <= aggressiveness cfg ->
  0 <= hs -> hs <= 1 -> 0 <= pot -> 0 <= chips -> 0 <= cb ->
  (raiseThreshold cfg <= hs ->
   action (decide cfg rnd hs ca pot chips cb ph) = RAISE /\
   exists a, amount (decide cfg rnd hs ca pot chips cb ph) = Some a /\ cb <= a) /\
  (effectiveStrength cfg rnd hs < raiseThreshold cfg ->
   decide cfg rnd hs ca pot chips cb ph = {| action := CHECK; amount := None |}).
Proof.
  intros Hca Ha Hs0 Hs1 Hp Hc Hcb.
  apply Qeq_bool_iff in Hca.
  split; intros Hr; unfold decide; rewrite Hca.
  - assert (He : Qgeb (effectiveStrength cfg rnd hs) (raiseThreshold cfg) = true).
    { apply Qgeb_ge. pose proof (effectiveStrength_ge cfg rnd hs Hs1). lra. }
    rewrite He. simpl. split; [reflexivity|].
    eexists. split; [reflexivity|].
    apply calculateRaiseAmount_ge_currentBet; auto.
    now apply effectiveStrength_nonneg.
  - apply Qgeb_lt in Hr. now rewrite Hr.
Qed.

Lemma decide_free_play_witness :
  (raiseThreshold getDefaultStrategy <= 0.75 ->
   action (decide getDefaultStrategy 0 0.75 0 100 1000 20 FLOP) = RAISE /\
   exists a, amount (decide getDefaultStrategy 0 0.75 0 100 1000 20 FLOP) = Some a /\
             20 <= a) /\
  (effectiveStrength getDefaultStrategy 0 0.75 < raiseThreshold getDefaultStrategy ->
   decide getDefaultStrategy 0 0.75 0 100 1000 20 FLOP
   = {| action := CHECK; amount := None |}).
Proof.
  apply (decide_free_play getDefaultStrategy 0 0.75 0 100 1000 20 FLOP);
    vm_compute; congruence.
Defined.

(** The aggressiveness of an engine never decreases, so every engine
    obtained from [new] by calls has a non-negative aggressiveness: the
    range hypothesis of [decide_free_play] holds at every call the program
    itself can make. *)
Lemma call_aggressiveness c e :
  aggressiveness (config e) <= 1 ->
  aggressiveness (config e) <= aggressiveness (config (call c e)).
Proof.
  intros H1. destruct c as [won|]; simpl; [lra|].
  unfold adaptStrategy.
  destruct (Qltb (winRate (stats e)) 0.3); [simpl; lra|].
  destruct (Qltb 0.7 (winRate (stats e))); [simpl|lra].
  apply Q.min_glb; lra.
Qed.

Lemma call_aggressiveness_le_1 c e :
  aggressiveness (config e) <= 1 -> aggressiveness (config (call c e)) <= 1.
Proof.
  intros H1. destruct c as [won|]; simpl; [exact H1|].
  unfold adaptStrategy.
  destruct (Qltb (winRate (stats e)) 0.3); [exact H1|].
  destruct (Qltb 0.7 (winRate (stats e))); [simpl|exact H1].
  eapply Qle_trans; [apply Q.le_min_r|]. lra.
Qed.

Lemma calls_aggressiveness_nonneg cs :
  0 <= aggressiveness (config (calls cs new)).
Proof.
  assert (H : forall e, 0 <= aggressiveness (config e) /\ aggressiveness (config e) <= 1 ->
                        0 <= aggressiveness (config (calls cs e))).
  { unfold calls. induction cs as [|c cs IH]; intros e [H0 H1]; simpl.
    - exact H0.
    - apply IH. split.
      + eapply Qle_trans; [exact H0 | now apply call_aggressiveness].
      + now apply call_aggressiveness_le_1. }
  apply H. split; vm_compute; congruence.
Qed.

Lemma adaptStrategy_bounded e :
  config_bounded (config e) -> config_bounded (config (adaptStrategy e)).
Proof.
  unfold config_bounded, adaptStrategy. intros (Hr1 & Hr2 & Hf & Hb & Ha).
  destruct (Qltb (winRate (stats e)) 0.3); [|destruct (Qltb 0.7 (winRate (stats e)))];
    simpl; repeat split; auto.
  - apply Q.min_glb; lra.
  - apply Q.le_min_r.
  - apply Q.le_min_r.
  - apply Q.le_max_r.
  - apply Q.le_max_r.
  - apply Q.max_lub; lra.
  - eapply Qle_trans; [apply Q.le_min_r|]. lra.
Qed.

Lemma call_bounded c e :
  config_bounded (config e) -> config_bounded (config (call c e)).
Proof.
  destruct c as [won|]; simpl.
  - trivial.
  - apply adaptStrategy_bounded.
Qed.

Lemma adaptStrategy_mid_winRate e :
  0.3 <= winRate (stats e) -> winRate (stats e) <= 0.7 -> adaptStrategy e = e.
Proof.
  intros Hlo Hhi. unfold adaptStrategy.
  apply Qltb_ge in Hlo, Hhi. now rewrite Hlo, Hhi.
Qed.

(** C8: from a configuration with raiseThreshold in [0.4, 0.8],
    foldThreshold <= 0.5, bluffProbability >= 0.05 and aggressiveness <= 1,
    every sequence of calls to the engine ([adaptStrategy], interleaved
    with any [recordResult]) keeps those bounds; and a call to
    [adaptStrategy] made while the win rate lies in [0.3, 0.7] changes
    nothing. *)
Theorem adaptStrategy_keeps_bounds e :
  config_bounded (config e) ->
  (forall cs, config_bounded (config (calls cs e))) /\
  (0.3 <= winRate (stats e) -> winRate (stats e) <= 0.7 -> adaptStrategy e = e).
Proof.
  intros Hb. split.
  - intros cs. revert e Hb. unfold calls.
    induction cs as [|c cs IH]; intros e Hb; simpl.
    + exact Hb.
    + apply IH. now apply call_bounded.
  - apply adaptStrategy_mid_winRate.
Qed.

Lemma adaptStrategy_keeps_bounds_witness :
  (forall cs, config_bounded (config (calls cs new))) /\
  (0.3 <= winRate (stats new) -> winRate (stats new) <= 0.7 ->
   adaptStrategy new = new).
Proof.
  apply (adaptStrategy_keeps_bounds new).
  unfold config_bounded. simpl. repeat split; vm_compute; congruence.
Defined.

End FreePlayAndLearning.

(** ** Polling controller *)

Section ControllerFacts.

Import Num PokerAgent Trace.
Local Open Scope Q_scope.

Lemma bind_run {A B : Type} (m : M A) (k : A -> M B) (s : t) :
  (m ≫= k) s =
  match m s with
  | (Returned x, s1, tr1) =>
      match k x s1 with
      | (r, s2, tr2) => (r, s2, tr1 ++ tr2)
      end
  | (Thrown, s1, tr1) => (Thrown, s1, tr1)
  end.
Proof. reflexivity. Qed.

Lemma updateState_run answer a :
  updateState answer a = (Returned tt, after_fetch answer a, [GetPublicState (fetched answer)]).
Proof. destruct answer; reflexivity. Qed.

Lemma makeAction_run w type amount a :
  makeAction w type amount a = (Returned tt, a, [SubmitAction type amount (action_ok w)]).
Proof.
  unfold makeAction, try_catch, remote_action. rewrite bind_run. simpl.
  destruct (action_ok w); reflexivity.
Qed.

Lemma toggleReady_run w a :
  toggleReady w a =
  (if toggle_ok w then Returned tt else Thrown, a, [ToggleReady (toggle_ok w)]).
Proof.
  unfold toggleReady, remote_toggleReady. rewrite bind_run. simpl.
  destruct (toggle_ok w); reflexivity.
Qed.

(** [autonomousDecision] always returns and leaves the agent unchanged. *)
Lemma autonomousDecision_returns w a :
  exists tr, autonomousDecision w a = (Returned tt, a, tr).
Proof.
  unfold autonomousDecision. rewrite bind_run. simpl.
  destruct (currentState a) as [st|]; [|eauto].
  destruct (not_my_turn st); [eauto|].
  destruct (players st !! myAccount st) as [me|]; [|eauto].
  destruct (folded me || allIn me); [eauto|].
  destruct (existsb _ (holeCards me)).
  - rewrite makeAction_run. eauto.
  - repeat (rewrite bind_run; simpl).
    destruct (StrategyEngine.action _);
      try destruct (truthy_amount _); rewrite makeAction_run; eauto.
Qed.

End ControllerFacts.

Section ControllerClaims.

Import Num PokerAgent Trace Sample.
Local Open Scope Q_scope.

Ltac run_method :=
  repeat (first [ rewrite bind_run | rewrite updateState_run
                | rewrite makeAction_run | rewrite toggleReady_run ]; simpl).

Lemma decide_action_cases cfg rnd hs ca pot chips cb ph :
  let d := StrategyEngine.decide cfg rnd hs ca pot chips cb ph in
  StrategyEngine.action d = FOLD \/ StrategyEngine.action d = CHECK \/
  StrategyEngine.action d = CALL \/ StrategyEngine.action d = RAISE.
Proof.
  unfold StrategyEngine.decide.
  repeat match goal with
         | |- context [if ?b then _ else _] => destruct b
         end; simpl; auto.
Qed.

Lemma autonomousDecision_no_all_in w a :
  existsb is_all_in_submission (snd (autonomousDecision w a)) = false.
Proof.
  unfold autonomousDecision. rewrite bind_run. simpl.
  destruct (currentState a) as [st|]; [|reflexivity].
  destruct (not_my_turn st); [reflexivity|].
  destruct (players st !! myAccount st) as [me|]; [|reflexivity].
  destruct (folded me || allIn me); [reflexivity|].
  destruct (existsb _ (holeCards me)).
  - rewrite makeAction_run. simpl. now destruct (Qeq_bool _ 0).
  - repeat (rewrite bind_run; simpl).
    match goal with
    | |- context [StrategyEngine.decide ?c ?r ?h ?ca ?p ?ch ?cb ?ph] =>
        destruct (decide_action_cases c r h ca p ch cb ph) as [E | [E | [E | E]]];
        rewrite E
    end;
      try destruct (truthy_amount _); rewrite makeAction_run; reflexivity.
Qed.

(** A tick throws only through a failed ready toggle. *)
Lemma pollTick_returns w a :
  toggle_ok w = true -> fst (fst (pollTick w a)) = Returned tt.
Proof.
  intros Hok. unfold pollTick. run_method.
  destruct (currentState (after_fetch (fetch w) a)) as [st|]; [|reflexivity].
  destruct (autonomousDecision_returns w (after_fetch (fetch w) a)) as [tr Htr].
  destruct (status st), (winner_present st), (players st !! myAccount st) as [me|];
    try destruct (ready me); run_method; rewrite ?Hok, ?Htr; reflexivity.
Qed.

Lemma pollTick_no_all_in w a :
  existsb is_all_in_submission (snd (pollTick w a)) = false.
Proof.
  unfold pollTick. run_method.
  destruct (currentState (after_fetch (fetch w) a)) as [st|]; [|reflexivity].
  destruct (status st), (winner_present st), (players st !! myAccount st) as [me|];
    try destruct (ready me); run_method; try destruct (toggle_ok w); simpl;
    try reflexivity;
    match goal with
    | |- context [autonomousDecision ?w' ?x] =>
        pose proof (autonomousDecision_no_all_in w' x) as Hno;
        destruct (autonomousDecision w' x) as [[r s1] tr]
    end; simpl in *; exact Hno.
Qed.

(** C10: [decide] returns FOLD, CHECK, CALL or RAISE, whatever its inputs
    and the bluff draw, so never ALL_IN; and no tick of the controller
    submits an ALL_IN action. *)
Theorem never_all_in :
  (forall cfg rnd hs ca pot chips cb ph,
     let d := StrategyEngine.decide cfg rnd hs ca pot chips cb ph in
     StrategyEngine.action d = FOLD \/ StrategyEngine.action d = CHECK \/
     StrategyEngine.action d = CALL \/ StrategyEngine.action d = RAISE) /\
  (forall w a, existsb is_all_in_submission (snd (pollTick w a)) = false).
Proof.
  split.
  - apply decide_action_cases.
  - apply pollTick_no_all_in.
Qed.

(** C9: on a betting street, when it is this agent's turn, the agent is
    neither folded nor all-in and one of its hole cards is hidden, the
    tick consists of the fetch and one submission, CHECK when
    [currentBet - bet] is zero and FOLD otherwise; the evaluator and the
    strategy engine are not called, and the strategy configuration plays
    no part. *)
Theorem hidden_cards_check_or_fold w a st me :
  fetch w = Some st ->
  waiting_or_showdown (status st) = false ->
  seat_at st = Some (myAccount st) ->
  players st !! myAccount st = Some me ->
  folded me = false ->
  allIn me = false ->
  In HandEvaluator.HIDDEN (holeCards me) ->
  pollTick w a =
  (Returned tt,
   {| strategy := strategy a; currentState := Some st |},
   [GetPublicState true;
    SubmitAction (if Qeq_bool (currentBet st - bet me) 0 then CHECK else FOLD)
      None (action_ok w)]).
Proof.
  intros Hf Hst Hseat Hme Hfold Hall Hhid.
  assert (Hex : existsb (fun card => String.eqb card HandEvaluator.HIDDEN)
                  (holeCards me) = true).
  { apply existsb_exists. exists HandEvaluator.HIDDEN.
    split; [exact Hhid | apply String.eqb_refl]. }
  unfold pollTick. run_method. rewrite Hf. simpl. rewrite Hst. run_method.
  unfold autonomousDecision. run_method.
  unfold not_my_turn. rewrite Hseat, String.eqb_refl. simpl.
  rewrite Hme, Hfold, Hall. simpl. rewrite Hex. run_method.
  reflexivity.
Qed.

Lemma hidden_cards_check_or_fold_witness :
  let st := snapshot TURN (alice ["??"; "??"] true) ["3D"; "7C"; "9H"; "JD"] None in
  pollTick (answers (Some st) true) PokerAgent.new =
  (Returned tt,
   {| strategy := strategy PokerAgent.new; currentState := Some st |},
   [GetPublicState true;
    SubmitAction (if Qeq_bool (currentBet st - bet (alice ["??"; "??"] true)) 0
                  then CHECK else FOLD)
      None (action_ok (answers (Some st) true))]).
Proof.
  intros st.
  apply (hidden_cards_check_or_fold (answers (Some st) true) PokerAgent.new st
           (alice ["??"; "??"] true)); try reflexivity.
  simpl. left. reflexivity.
Defined.

(** C3 at its failing input.  An agent that holds the snapshot of an
    earlier tick (the flop, its turn, a pair of aces, nothing to call)
    and whose fetch fails does not skip the tick: it evaluates, decides
    and submits CHECK from the retained snapshot. *)
Lemma failed_fetch_still_acts :
  fetch (answers None true) = None /\
  pollTick (answers None true) (holding flop_to_act) =
  (Returned tt, holding flop_to_act,
   [GetPublicState false;
    Evaluate ["AS"; "AH"] ["3D"; "7C"; "9H"];
    Decide 0.55 0 100 1000 0 FLOP;
    SubmitAction CHECK None true]).
Proof. split; vm_compute; reflexivity. Qed.

(** The extent of that defect.  When the fetch fails the agent keeps the
    snapshot it holds.  If it holds none, the tick does nothing more.  If
    it holds one, the tick runs on it exactly as a tick that had just
    fetched that snapshot: same result, same final agent, same calls
    after the fetch. *)
Lemma failed_fetch_uses_held_snapshot w a :
  fetch w = None ->
  (currentState a = None ->
   pollTick w a = (Returned tt, a, [GetPublicState false])) /\
  (forall st, currentState a = Some st ->
     pollTick w a =
     let '(r, a', tr) := pollTick (with_fetch (Some st) w) a in
     (r, a', GetPublicState false :: tl tr)).
Proof.
  intros Hf. destruct w as [f tg rf ao rnd]. simpl in Hf. subst f.
  destruct a as [eng cur]. simpl. split.
  - intros ->. reflexivity.
  - intros st ->. unfold pollTick, with_fetch. run_method.
    unfold toggleReady, autonomousDecision, makeAction.
    cbn [fetch toggle_ok refetch action_ok random].
    match goal with
    | |- match ?X with _ => _ end = _ => destruct X as [[r a'] tr]
    end.
    reflexivity.
Qed.

Lemma failed_fetch_uses_held_snapshot_witness :
  (currentState (holding flop_to_act) = None ->
   pollTick (answers None true) (holding flop_to_act)
   = (Returned tt, holding flop_to_act, [GetPublicState false])) /\
  (forall st, currentState (holding flop_to_act) = Some st ->
     pollTick (answers None true) (holding flop_to_act) =
     let '(r, a', tr) :=
       pollTick (with_fetch (Some st) (answers None true)) (holding flop_to_act) in
     (r, a', GetPublicState false :: tl tr)).
Proof.
  apply (failed_fetch_uses_held_snapshot (answers None true) (holding flop_to_act)).
  reflexivity.
Defined.

(** The same defect over two ticks: the first fetches the flop and
    submits CHECK; the second, whose fetch fails, submits CHECK again for
    the same turn. *)
Example failed_fetch_repeats_the_action :
  List.filter Tick.is_submission
    (events (snd (pollLoop [answers (Some flop_to_act) true; answers None true]
                    PokerAgent.new))) =
  [SubmitAction CHECK None true; SubmitAction CHECK None true].
Proof. vm_compute. reflexivity. Qed.

(** A tick whose fetch succeeds does not depend on the snapshot held
    before. *)
Lemma fresh_fetch_replaces_snapshot w eng held st :
  fetch w = Some st ->
  pollTick w {| strategy := eng; currentState := held |} =
  pollTick w {| strategy := eng; currentState := None |}.
Proof.
  intros Hf. unfold pollTick. run_method. rewrite Hf. reflexivity.
Qed.

(** C5 at its failing input: in the lobby, with this agent not ready, a
    rejected ready toggle leaves the tick as an exception. *)
Theorem toggleReady_failure_escapes :
  pollTick (answers (Some lobby) false) PokerAgent.new =
  (Thrown,
   {| strategy := StrategyEngine.new; currentState := Some lobby |},
   [GetPublicState true; ToggleReady false]).
Proof. vm_compute. reflexivity. Qed.

Lemma after_fetch_strategy answer a :
  strategy (after_fetch answer a) = strategy a.
Proof. now destruct answer. Qed.

(** Every tick that sees a showdown with winner information records one
    result, whether or not an earlier tick already saw that showdown. *)
Lemma pollTick_showdown_records w a :
  fetches_showdown w = true ->
  exists won,
    strategy (snd (fst (pollTick w a))) = StrategyEngine.recordResult won (strategy a) /\
    List.filter is_recordResult (snd (pollTick w a)) = [RecordResult won].
Proof.
  unfold fetches_showdown. destruct (fetch w) as [st|] eqn:Hf; [|discriminate].
  destruct (status st) eqn:Hst; try discriminate.
  destruct (winner_present st) as [info|] eqn:Hw; [|discriminate].
  intros _. exists (includes (myAccount st) info).
  unfold pollTick. run_method. rewrite Hf. simpl. rewrite Hst, Hw. run_method.
  destruct (players st !! myAccount st) as [me|]; [destruct (ready me)|];
    simpl; run_method; try destruct (toggle_ok w); simpl;
    rewrite ?after_fetch_strategy; auto.
Qed.

Lemma pollLoop_showdown_ticks ws a :
  forallb fetches_showdown ws = true ->
  StrategyEngine.totalHands (StrategyEngine.stats (strategy (fst (pollLoop ws a))))
  = (StrategyEngine.totalHands (StrategyEngine.stats (strategy a)) + length ws)%nat /\
  length (List.filter is_recordResult (events (snd (pollLoop ws a)))) = length ws.
Proof.
  revert a. induction ws as [|w ws IH]; intros a Hall; simpl.
  - split; [lia | reflexivity].
  - apply andb_true_iff in Hall as [Hw Hws].
    destruct (pollTick_showdown_records w a Hw) as (won & Hs & Htr).
    destruct (pollTick w a) as [[r a1] tr]. simpl in Hs, Htr.
    specialize (IH a1 Hws).
    destruct (pollLoop ws a1) as [a2 rest]. simpl in *.
    destruct IH as [IH1 IH2]. unfold events in *. simpl.
    rewrite List.filter_app, List.length_app, Htr, IH1, IH2, Hs. simpl. split; lia.
Qed.

(** C2 at its failing input: one showdown, won by this agent, that is
    still reported on the next tick is recorded twice; [totalHands] and
    [wins] go from 0 to 2. *)
Theorem showdown_recorded_on_every_tick :
  let w := answers (Some showdown_won) true in
  forallb fetches_showdown [w; w] = true /\
  StrategyEngine.stats (strategy (fst (pollLoop [w; w] PokerAgent.new))) =
  {| StrategyEngine.wins := 2; StrategyEngine.losses := 0;
     StrategyEngine.totalHands := 2;
     StrategyEngine.successfulBluffs := 0; StrategyEngine.failedBluffs := 0 |} /\
  List.filter is_recordResult (events (snd (pollLoop [w; w] PokerAgent.new))) =
  [RecordResult true; RecordResult true].
Proof. vm_compute. repeat split; reflexivity. Qed.

End ControllerClaims.

(** ** Hand evaluator *)

Section EvaluatorClaims.

Import HandEvaluator Design.
Local Open Scope Z_scope.

Lemma includes_In x l : includes x l = true <-> In x l.
Proof.
  unfold includes. rewrite existsb_exists. split.
  - intros (y & Hy & E). apply Z.eqb_eq in E. now subst.
  - intros H. exists x. split; [exact H | apply Z.eqb_refl].
Qed.

(** What [checkStraightDraw] computes: at least four distinct ranks, and
    either one of the slices [slice(i, i + 5)] with [i <= length - 4]
    spans at most 4, or an ace and a two are both present. *)
Lemma checkStraightDraw_spec l :
  checkStraightDraw l = true <->
  (4 <= length l)%nat /\
  ((exists i, (i + 4 <= length l)%nat /\ window_hit l i = true) \/
   (In 14 l /\ In 2 l)).
Proof.
  unfold checkStraightDraw.
  destruct (length l <? 4)%nat eqn:Hlen.
  - apply Nat.ltb_lt in Hlen. split; [discriminate | lia].
  - apply Nat.ltb_ge in Hlen.
    destruct (existsb (window_hit l) (seq 0 (length l - 3))) eqn:Hex.
    + apply existsb_exists in Hex as (i & Hi & Hhit). apply in_seq in Hi.
      split; [|reflexivity]. intros _. split; [exact Hlen|].
      left. exists i. split; [lia | exact Hhit].
    + rewrite andb_true_iff, !includes_In. split.
      * intros H. split; [exact Hlen | now right].
      * intros [_ [(i & Hi & Hhit) | H]]; [|exact H].
        assert (existsb (window_hit l) (seq 0 (length l - 3)) = true) as Habs;
          [|congruence].
        apply existsb_exists. exists i. split; [|exact Hhit].
        apply in_seq. lia.
Qed.

(** C4 at its failing input: the distinct ranks A, 9, 7, 2 contain no run
    of four spanning at most 4 and no wheel, yet [checkStraightDraw]
    accepts them, because its wheel test looks for an ace and a two only.
    As a consequence [evaluate] rates A-2-7-9-J, a high-card hand, as a
    straight with a straight draw (0.8 + 0.1). *)
Theorem checkStraightDraw_ace_and_two :
  checkStraightDraw [14; 9; 7; 2] = true /\
  documented_straight [14; 9; 7; 2] = false /\
  wheel_present [14; 9; 7; 2] = false /\
  (evaluate ["AS"; "2H"] ["7D"; "9C"; "JS"] == 0.9)%Q.
Proof. repeat split; vm_compute; reflexivity. Qed.

(** The slices are taken five wide from every start index, so a run of
    four close ranks is only seen at the end of the list: 10-9-8-7 followed
    by a 2 is not reported. *)
Example checkStraightDraw_run_before_low_card :
  checkStraightDraw [10; 9; 8; 7; 2] = false /\
  documented_straight [10; 9; 8; 7; 2] = true.
Proof. split; vm_compute; reflexivity. Qed.

(** The scenarios of the design document, run on the embedding. *)
Example evaluate_hidden_hand :
  evaluate ["??"; "??"] [] = 0.3%Q /\ evaluate ["AS"; "??"] [] = 0.3%Q.
Proof. split; reflexivity. Qed.

Example evaluate_four_of_a_kind :
  (evaluate ["9S"; "9H"] ["9D"; "9C"; "KS"] == 0.95)%Q.
Proof. vm_compute. reflexivity. Qed.

Example evaluate_pairs :
  (evaluate ["KS"; "KH"] [] == 0.55)%Q /\ (evaluate ["4S"; "4H"] [] == 0.45)%Q.
Proof. split; vm_compute; reflexivity. Qed.

Example decide_call_scenario :
  StrategyEngine.decide StrategyEngine.getDefaultStrategy 0.5%Q 0.5%Q 20%Q 100%Q
    1000%Q 20%Q FLOP
  = {| StrategyEngine.action := CALL; StrategyEngine.amount := None |}.
Proof. reflexivity. Qed.

(** When the wheel is really there, the code's test agrees. *)
Lemma wheel_present_ace_and_two l :
  wheel_present l = true -> includes 14 l && includes 2 l = true.
Proof.
  unfold wheel_present. simpl. intros H.
  apply andb_true_iff in H as [H14 H]. apply andb_true_iff in H as [H2 _].
  now rewrite H14, H2.
Qed.

End EvaluatorClaims.


(** * Further properties of the code *)

(** ** Strategy engine: shape of a decision *)

Section DecisionShape.

Import Num StrategyEngine.
Local Open Scope Q_scope.

Lemma ext_ltb_weaken (x : ext) (c d : Q) :
  c <= d -> ext_ltb x c = true -> ext_ltb x d = true.
Proof.
  destruct x as [q|]; simpl; [|discriminate].
  rewrite !Qltb_lt. intros Hcd Hq. lra.
Qed.

Ltac split_decide :=
  unfold decide;
  repeat match goal with
         | |- context [if ?b then _ else _] => destruct b eqn:?
         end; simpl.

Lemma decide_amount_is_raise cfg rnd hs ca pot chips cb ph a :
  amount (decide cfg rnd hs ca pot chips cb ph) = Some a ->
  action (decide cfg rnd hs ca pot chips cb ph) = RAISE.
Proof. split_decide; congruence. Qed.

(** Only a RAISE carries an amount, and that amount exceeds the current
    bet by a whole number of chips that is at most 70% of the stack,
    whatever the pot, the strength and the aggressiveness are. *)
Theorem decide_raise_cap cfg rnd hs ca pot chips cb ph a :
  amount (decide cfg rnd hs ca pot chips cb ph) = Some a ->
  action (decide cfg rnd hs ca pot chips cb ph) = RAISE /\
  exists n : Z, a == cb + inject_Z n /\ inject_Z n <= 0.7 * chips.
Proof.
  intros Ha.
  pose proof (decide_amount_is_raise _ _ _ _ _ _ _ _ _ Ha) as Hr.
  split; [exact Hr|].
  rewrite (decide_raise_inv _ _ _ _ _ _ _ _ Hr) in Ha. injection Ha as <-.
  unfold calculateRaiseAmount.
  set (x := Qfloor (pot * 0.5 * (1 + aggressiveness cfg * effectiveStrength cfg rnd hs))).
  set (m := Qfloor (chips * 0.7)).
  assert (Hm : inject_Z m <= 0.7 * chips).
  { eapply Qle_trans; [apply Qfloor_le|]. lra. }
  destruct (Q.min_spec (inject_Z x) (inject_Z m)) as [[Hlt E] | [Hle E]].
  - exists x. split; [now rewrite E | lra].
  - exists m. split; [now rewrite E | exact Hm].
Qed.

Lemma decide_raise_cap_witness :
  action (decide getDefaultStrategy 0.5 0.75 0 100000 1000 20 FLOP) = RAISE /\
  exists n : Z, 720 == 20 + inject_Z n /\ inject_Z n <= 0.7 * 1000.
Proof.
  apply (decide_raise_cap getDefaultStrategy 0.5 0.75 0 100000 1000 20 FLOP 720).
  reflexivity.
Defined.

(** The kind of action follows the cost of acting: with nothing to call
    the engine checks or raises, and never folds or calls; with something
    to call it never checks. *)
Theorem decide_free_or_paid cfg rnd hs ca pot chips cb ph :
  (ca == 0 ->
   action (decide cfg rnd hs ca pot chips cb ph) = CHECK \/
   action (decide cfg rnd hs ca pot chips cb ph) = RAISE) /\
  (~ ca == 0 ->
   action (decide cfg rnd hs ca pot chips cb ph) = FOLD \/
   action (decide cfg rnd hs ca pot chips cb ph) = CALL \/
   action (decide cfg rnd hs ca pot chips cb ph) = RAISE).
Proof.
  split; intros Hca.
  - apply Qeq_bool_iff in Hca. unfold decide. rewrite Hca.
    destruct (Qgeb _ _); simpl; auto.
  - assert (E : Qeq_bool ca 0 = false).
    { destruct (Qeq_bool ca 0) eqn:E; [|reflexivity].
      apply Qeq_bool_iff in E. contradiction. }
    unfold decide. rewrite E.
    repeat match goal with
           | |- context [if ?b then _ else _] => destruct b
           end; simpl; auto.
Qed.

Lemma decide_free_or_paid_witness :
  (action (decide getDefaultStrategy 0.5 0.5 0 100 1000 0 FLOP) = CHECK \/
   action (decide getDefaultStrategy 0.5 0.5 0 100 1000 0 FLOP) = RAISE) /\
  (action (decide getDefaultStrategy 0.5 0.5 20 100 1000 20 FLOP) = FOLD \/
   action (decide getDefaultStrategy 0.5 0.5 20 100 1000 20 FLOP) = CALL \/
   action (decide getDefaultStrategy 0.5 0.5 20 100 1000 20 FLOP) = RAISE).
Proof.
  split.
  - apply (proj1 (decide_free_or_paid getDefaultStrategy 0.5 0.5 0 100 1000 0 FLOP)).
    reflexivity.
  - apply (proj2 (decide_free_or_paid getDefaultStrategy 0.5 0.5 20 100 1000 20 FLOP)).
    vm_compute. discriminate.
Defined.

(** A RAISE needs an effective strength at or above the raise threshold
    and, when there is something to call, a call below half the stack. *)
Theorem decide_raise_needs_strength cfg rnd hs ca pot chips cb ph :
  action (decide cfg rnd hs ca pot chips cb ph) = RAISE ->
  raiseThreshold cfg <= effectiveStrength cfg rnd hs /\
  (ca == 0 \/ ca < chips * 0.5).
Proof.
  unfold decide.
  destruct (Qeq_bool ca 0) eqn:E0;
    destruct (Qgeb (effectiveStrength cfg rnd hs) (raiseThreshold cfg)) eqn:Er;
    try destruct (Qltb ca (chips * 0.5)) eqn:Eh;
    repeat match goal with
           | |- context [if ?b then _ else _] => destruct b
           end; simpl; intros H; try discriminate H;
    (split; [now apply Qgeb_ge
            | first [left; now apply Qeq_bool_iff | right; now apply Qltb_lt]]).
Qed.

Lemma decide_raise_needs_strength_witness :
  raiseThreshold getDefaultStrategy <= effectiveStrength getDefaultStrategy 0.5 0.75 /\
  (20 == 0 \/ 20 < 1000 * 0.5).
Proof.
  apply (decide_raise_needs_strength getDefaultStrategy 0.5 0.75 20 100 1000 20 FLOP).
  reflexivity.
Defined.

(** A bluff never costs a hand: for a strength of at most 1, whenever the
    decision without a bluff is not FOLD, the decision with a bluff (same
    inputs, a draw below the bluff probability) is not FOLD either, and a
    RAISE stays a RAISE.  No order between the thresholds is needed. *)
Theorem bluff_never_folds_a_playable_hand cfg rnd rnd' hs ca pot chips cb ph :
  hs <= 1 ->
  shouldBluff cfg rnd = false ->
  shouldBluff cfg rnd' = true ->
  (action (decide cfg rnd hs ca pot chips cb ph) <> FOLD ->
   action (decide cfg rnd' hs ca pot chips cb ph) <> FOLD) /\
  (action (decide cfg rnd hs ca pot chips cb ph) = RAISE ->
   action (decide cfg rnd' hs ca pot chips cb ph) = RAISE).
Proof.
  intros H1 Hn Hb.
  pose proof (effectiveStrength_ge cfg rnd' hs H1) as Hge.
  unfold decide. rewrite (effectiveStrength_no_bluff _ _ _ Hn).
  set (e := effectiveStrength cfg rnd' hs) in *.
  destruct (Qeq_bool ca 0).
  { destruct (Qgeb hs (raiseThreshold cfg)) eqn:Er.
    - apply Qgeb_ge in Er.
      assert (Er' : Qgeb e (raiseThreshold cfg) = true) by (apply Qgeb_ge; lra).
      rewrite Er'. simpl. split; congruence.
    - destruct (Qgeb e (raiseThreshold cfg)); simpl; split; congruence. }
  destruct (Qgeb hs (raiseThreshold cfg)) eqn:Er.
  { apply Qgeb_ge in Er.
    assert (Er' : Qgeb e (raiseThreshold cfg) = true) by (apply Qgeb_ge; lra).
    rewrite Er'. destruct (Qltb ca (chips * 0.5)); simpl; split; congruence. }
  assert (Hnoraise :
    forall d, action (if Qgeb hs (callThreshold cfg)
                      then if ext_ltb (potOdds ca pot) 0.4 || Qltb ca (chips * 0.2)
                           then {| action := CALL; amount := None |}
                           else {| action := FOLD; amount := None |}
                      else d) = RAISE -> action d = RAISE).
  { intros d. destruct (Qgeb hs (callThreshold cfg)); [|trivial].
    destruct (_ || _); simpl; discriminate. }
  split.
  - (* not FOLD is kept *)
    destruct (Qgeb e (raiseThreshold cfg)).
    { destruct (Qltb ca (chips * 0.5)); simpl; discriminate. }
    destruct (Qgeb hs (callThreshold cfg)) eqn:Ec.
    + apply Qgeb_ge in Ec.
      assert (Ec' : Qgeb e (callThreshold cfg) = true) by (apply Qgeb_ge; lra).
      rewrite Ec'. trivial.
    + destruct (Qgeb hs (foldThreshold cfg)) eqn:Ef; [|simpl; congruence].
      apply Qgeb_ge in Ef.
      assert (Ef' : Qgeb e (foldThreshold cfg) = true) by (apply Qgeb_ge; lra).
      rewrite Ef'.
      destruct (ext_ltb (potOdds ca pot) 0.2) eqn:Eo; simpl; [|congruence].
      assert (Eo' : ext_ltb (potOdds ca pot) 0.4 = true).
      { apply (ext_ltb_weaken _ 0.2); [lra | exact Eo]. }
      rewrite Eo'. simpl.
      destruct (Qltb ca (chips * 0.1)) eqn:Ech; simpl; [|congruence].
      destruct (Qgeb e (callThreshold cfg)); simpl; congruence.
  - (* RAISE is kept: without a raise-strength hand there is no RAISE *)
    intros H. exfalso. apply Hnoraise in H. revert H.
    destruct (Qgeb hs (foldThreshold cfg)); [destruct (_ && _)|]; simpl; discriminate.
Qed.

Lemma bluff_never_folds_a_playable_hand_witness :
  (action (decide getDefaultStrategy 0.5 0.5 20 100 1000 20 FLOP) <> FOLD ->
   action (decide getDefaultStrategy 0 0.5 20 100 1000 20 FLOP) <> FOLD) /\
  (action (decide getDefaultStrategy 0.5 0.5 20 100 1000 20 FLOP) = RAISE ->
   action (decide getDefaultStrategy 0 0.5 20 100 1000 20 FLOP) = RAISE).
Proof.
  apply (bluff_never_folds_a_playable_hand getDefaultStrategy 0.5 0 0.5 20 100 1000 20 FLOP);
    vm_compute; congruence.
Defined.

End DecisionShape.

(** ** Strategy engine: statistics and learning *)

Section EngineState.

Import Num StrategyEngine Invariants.
Local Open Scope Q_scope.

Lemma call_counters c e :
  counters_consistent (stats e) -> counters_consistent (stats (call c e)).
Proof.
  unfold counters_consistent. intros (Hsum & Hs & Hf).
  destruct c as [[|]|]; simpl.
  - repeat split; auto; lia.
  - repeat split; auto; lia.
  - unfold adaptStrategy.
    destruct (Qltb _ 0.3); [|destruct (Qltb 0.7 _)]; simpl; auto.
Qed.

(** The counters stay consistent under any sequence of [recordResult] and
    [adaptStrategy] calls: [wins + losses = totalHands], and the two bluff
    counters, which no method writes, stay at zero. *)
Theorem calls_keep_counters cs e :
  counters_consistent (stats e) -> counters_consistent (stats (calls cs e)).
Proof.
  unfold calls. revert e. induction cs as [|c cs IH]; intros e H; simpl.
  - exact H.
  - apply IH. now apply call_counters.
Qed.

Lemma calls_keep_counters_witness :
  counters_consistent
    (stats (calls [CallRecordResult true; CallAdaptStrategy; CallRecordResult false] new)).
Proof.
  apply (calls_keep_counters
           [CallRecordResult true; CallAdaptStrategy; CallRecordResult false] new).
  repeat split.
Defined.

(** With consistent counters the win rate that drives the adaptation is a
    proportion: it lies between 0 and 1, and is 0.5 before any hand. *)
Theorem winRate_is_proportion st :
  counters_consistent st ->
  0 <= winRate st /\ winRate st <= 1 /\
  (totalHands st = 0%nat -> winRate st = 0.5).
Proof.
  intros (Hsum & _ & _). unfold winRate.
  destruct (0 <? totalHands st)%nat eqn:Ht.
  - apply Nat.ltb_lt in Ht.
    assert (Hpos : 0 < inject_Z (Z.of_nat (totalHands st))).
    { change 0 with (inject_Z 0). rewrite <- Zlt_Qlt. lia. }
    split; [|split].
    + apply Qle_shift_div_l; [exact Hpos|]. rewrite Qmult_0_l.
      change 0 with (inject_Z 0). rewrite <- Zle_Qle. lia.
    + apply Qle_shift_div_r; [exact Hpos|]. rewrite Qmult_1_l.
      rewrite <- Zle_Qle. lia.
    + intros H0. lia.
  - split; [lra | split; [lra | reflexivity]].
Qed.

Lemma winRate_is_proportion_witness :
  0 <= winRate (stats (recordResult true new)) /\
  winRate (stats (recordResult true new)) <= 1 /\
  (totalHands (stats (recordResult true new)) = 0%nat ->
   winRate (stats (recordResult true new)) = 0.5).
Proof.
  apply (winRate_is_proportion (stats (recordResult true new))).
  repeat split.
Defined.

Lemma adaptStrategy_stats e : stats (adaptStrategy e) = stats e.
Proof.
  unfold adaptStrategy.
  destruct (Qltb _ 0.3); [|destruct (Qltb 0.7 _)]; reflexivity.
Qed.

Lemma adaptStrategy_callThreshold e :
  callThreshold (config (adaptStrategy e)) = callThreshold (config e).
Proof.
  unfold adaptStrategy.
  destruct (Qltb _ 0.3); [|destruct (Qltb 0.7 _)]; reflexivity.
Qed.

Lemma calls_stats_from cs e e' :
  stats e = stats e' ->
  stats (calls cs e) = stats (calls (List.filter is_recordResult_call cs) e').
Proof.
  unfold calls. revert e e'. induction cs as [|c cs IH]; intros e e' H; simpl.
  - exact H.
  - destruct c as [won|]; simpl.
    + apply IH. unfold recordResult. now rewrite H.
    + apply IH. now rewrite adaptStrategy_stats.
Qed.

(** Learning and bookkeeping do not interfere.  No sequence of calls
    changes the call threshold, and the counters after a sequence are
    those obtained from its [recordResult] calls alone: the
    [adaptStrategy] calls in between make no difference to them. *)
Theorem calls_leave_untouched cs e :
  callThreshold (config (calls cs e)) = callThreshold (config e) /\
  stats (calls cs e) = stats (calls (List.filter is_recordResult_call cs) e).
Proof.
  split.
  - unfold calls. revert e. induction cs as [|c cs IH]; intros e; simpl.
    + reflexivity.
    + rewrite IH. destruct c as [won|]; simpl; [reflexivity|].
      apply adaptStrategy_callThreshold.
  - now apply calls_stats_from.
Qed.

Lemma adapt_times_S n e :
  adapt_times (S n) e = adapt_times n (adaptStrategy e).
Proof. reflexivity. Qed.

Lemma adapt_times_callThreshold n e :
  callThreshold (config (adapt_times n e)) = callThreshold (config e).
Proof.
  revert e. induction n as [|n IH]; intros e; [reflexivity|].
  rewrite adapt_times_S, IH. apply adaptStrategy_callThreshold.
Qed.

Lemma inject_S (n : nat) : inject_Z (Z.of_nat (S n)) == inject_Z (Z.of_nat n) + 1.
Proof.
  rewrite Nat2Z.inj_succ. unfold Z.succ. rewrite inject_Z_plus. reflexivity.
Qed.

(** In the exact arithmetic of this embedding, [n >= 1] tightening calls
    in a row leave [raiseThreshold = min(r + 0.05 n, 0.8)],
    [foldThreshold = min(f + 0.05 n, 0.5)] and
    [bluffProbability = max(b - 0.05 n, 0.05)].  The program's doubles
    drift from these values by rounding; what does not depend on the
    rounding is stated next. *)
Lemma tightening_closed_form n e :
  winRate (stats e) < 0.3 ->
  let k := inject_Z (Z.of_nat (S n)) in
  let e' := adapt_times (S n) e in
  raiseThreshold (config e') == Qmin (raiseThreshold (config e) + 0.05 * k) 0.8 /\
  foldThreshold (config e') == Qmin (foldThreshold (config e) + 0.05 * k) 0.5 /\
  bluffProbability (config e') == Qmax (bluffProbability (config e) - 0.05 * k) 0.05 /\
  aggressiveness (config e') = aggressiveness (config e) /\
  stats e' = stats e.
Proof.
  cbv zeta. revert e. induction n as [|n IH]; intros e Hw.
  - apply Qltb_lt in Hw. unfold adapt_times, calls. simpl. unfold adaptStrategy.
    rewrite Hw. simpl.
    repeat split;
      match goal with
      | |- Qmin ?a ?b == Qmin ?c ?d =>
          destruct (Q.min_spec a b) as [[? ->]|[? ->]];
          destruct (Q.min_spec c d) as [[? ->]|[? ->]]; lra
      | |- Qmax ?a ?b == Qmax ?c ?d =>
          destruct (Q.max_spec a b) as [[? ->]|[? ->]];
          destruct (Q.max_spec c d) as [[? ->]|[? ->]]; lra
      end.
  - rewrite adapt_times_S.
    assert (Hw' : winRate (stats (adaptStrategy e)) < 0.3)
      by now rewrite adaptStrategy_stats.
    destruct (IH (adaptStrategy e) Hw') as (Hr & Hf & Hb & Ha & Hs).
    pose proof (inject_S (S n)) as HS.
    apply Qltb_lt in Hw.
    assert (Hcfg : config (adaptStrategy e) =
                   {| raiseThreshold := Qmin (raiseThreshold (config e) + 0.05) 0.8;
                      callThreshold := callThreshold (config e);
                      foldThreshold := Qmin (foldThreshold (config e) + 0.05) 0.5;
                      bluffProbability := Qmax (bluffProbability (config e) - 0.05) 0.05;
                      aggressiveness := aggressiveness (config e) |}).
    { unfold adaptStrategy. now rewrite Hw. }
    rewrite Hcfg in Hr, Hf, Hb, Ha. simpl in Hr, Hf, Hb, Ha.
    rewrite adaptStrategy_stats in Hs.
    split; [|split; [|split; [|split; [exact Ha | exact Hs]]]].
    + rewrite Hr.
      destruct (Q.min_spec (raiseThreshold (config e) + 0.05) 0.8) as [[? ->]|[? ->]];
        match goal with
        | |- Qmin ?a ?b == Qmin ?c ?d =>
            destruct (Q.min_spec a b) as [[? ->]|[? ->]];
            destruct (Q.min_spec c d) as [[? ->]|[? ->]]
        end;
        assert (0 <= inject_Z (Z.of_nat (S n)))
          by (change 0 with (inject_Z 0); rewrite <- Zle_Qle; lia); lra.
    + rewrite Hf.
      destruct (Q.min_spec (foldThreshold (config e) + 0.05) 0.5) as [[? ->]|[? ->]];
        match goal with
        | |- Qmin ?a ?b == Qmin ?c ?d =>
            destruct (Q.min_spec a b) as [[? ->]|[? ->]];
            destruct (Q.min_spec c d) as [[? ->]|[? ->]]
        end;
        assert (0 <= inject_Z (Z.of_nat (S n)))
          by (change 0 with (inject_Z 0); rewrite <- Zle_Qle; lia); lra.
    + rewrite Hb.
      destruct (Q.max_spec (bluffProbability (config e) - 0.05) 0.05) as [[? ->]|[? ->]];
        match goal with
        | |- Qmax ?a ?b == Qmax ?c ?d =>
            destruct (Q.max_spec a b) as [[? ->]|[? ->]];
            destruct (Q.max_spec c d) as [[? ->]|[? ->]]
        end;
        assert (0 <= inject_Z (Z.of_nat (S n)))
          by (change 0 with (inject_Z 0); rewrite <- Zle_Qle; lia); lra.
Qed.

(** Tightening reaches the caps and stays there.  While the win rate is
    below 0.3, from thresholds that are not negative and a bluff
    probability of at most 1, twenty or more calls to [adaptStrategy] in
    a row leave [raiseThreshold = 0.8], [foldThreshold = 0.5] and
    [bluffProbability = 0.05]; the call threshold, the aggressiveness and
    the counters are unchanged. *)
Theorem tightening_reaches_caps n e :
  winRate (stats e) < 0.3 ->
  0 <= raiseThreshold (config e) ->
  0 <= foldThreshold (config e) ->
  bluffProbability (config e) <= 1 ->
  (20 <= n)%nat ->
  raiseThreshold (config (adapt_times n e)) == 0.8 /\
  foldThreshold (config (adapt_times n e)) == 0.5 /\
  bluffProbability (config (adapt_times n e)) == 0.05 /\
  callThreshold (config (adapt_times n e)) = callThreshold (config e) /\
  aggressiveness (config (adapt_times n e)) = aggressiveness (config e) /\
  stats (adapt_times n e) = stats e.
Proof.
  intros Hw Hr Hf Hb Hn.
  destruct n as [|n]; [lia|].
  destruct (tightening_closed_form n e Hw) as (Er & Ef & Eb & Ea & Es).
  assert (Hk : 20 <= inject_Z (Z.of_nat (S n))).
  { change 20 with (inject_Z 20). rewrite <- Zle_Qle. lia. }
  split; [|split; [|split; [|split; [|split]]]].
  - rewrite Er. apply Q.min_r. lra.
  - rewrite Ef. apply Q.min_r. lra.
  - rewrite Eb. apply Q.max_r. lra.
  - apply adapt_times_callThreshold.
  - exact Ea.
  - exact Es.
Qed.

Lemma tightening_reaches_caps_witness :
  let e := {| config := getDefaultStrategy;
              stats := {| wins := 1; losses := 9; totalHands := 10;
                          successfulBluffs := 0; failedBluffs := 0 |} |} in
  raiseThreshold (config (adapt_times 20 e)) == 0.8 /\
  foldThreshold (config (adapt_times 20 e)) == 0.5 /\
  bluffProbability (config (adapt_times 20 e)) == 0.05 /\
  callThreshold (config (adapt_times 20 e)) = callThreshold (config e) /\
  aggressiveness (config (adapt_times 20 e)) = aggressiveness (config e) /\
  stats (adapt_times 20 e) = stats e.
Proof.
  intros e. apply (tightening_reaches_caps 20 e).
  - reflexivity.
  - vm_compute. discriminate.
  - vm_compute. discriminate.
  - vm_compute. discriminate.
  - apply Nat.le_refl.
Defined.

(** In the exact arithmetic of this embedding, [n >= 1] loosening calls
    in a row leave [raiseThreshold = max(r - 0.05 n, 0.4)] and
    [aggressiveness = min(g + 0.1 n, 1)].  What does not depend on the
    rounding is stated next. *)
Lemma loosening_closed_form n e :
  0.7 < winRate (stats e) ->
  let k := inject_Z (Z.of_nat (S n)) in
  let e' := adapt_times (S n) e in
  raiseThreshold (config e') == Qmax (raiseThreshold (config e) - 0.05 * k) 0.4 /\
  aggressiveness (config e') == Qmin (aggressiveness (config e) + 0.1 * k) 1 /\
  foldThreshold (config e') = foldThreshold (config e) /\
  bluffProbability (config e') = bluffProbability (config e) /\
  stats e' = stats e.
Proof.
  cbv zeta. revert e. induction n as [|n IH]; intros e Hw.
  - assert (Hlo : Qltb (winRate (stats e)) 0.3 = false) by (apply Qltb_ge; lra).
    apply Qltb_lt in Hw. unfold adapt_times, calls. simpl. unfold adaptStrategy.
    rewrite Hlo, Hw. simpl. change (inject_Z (Z.of_nat 1)) with 1.
    repeat split;
      match goal with
      | |- Qmin ?a ?b == Qmin ?c ?d =>
          destruct (Q.min_spec a b) as [[? ->]|[? ->]];
          destruct (Q.min_spec c d) as [[? ->]|[? ->]]; lra
      | |- Qmax ?a ?b == Qmax ?c ?d =>
          destruct (Q.max_spec a b) as [[? ->]|[? ->]];
          destruct (Q.max_spec c d) as [[? ->]|[? ->]]; lra
      end.
  - rewrite adapt_times_S.
    assert (Hw' : 0.7 < winRate (stats (adaptStrategy e)))
      by now rewrite adaptStrategy_stats.
    destruct (IH (adaptStrategy e) Hw') as (Hr & Ha & Hf & Hb & Hs).
    pose proof (inject_S (S n)) as HS.
    assert (Hlo : Qltb (winRate (stats e)) 0.3 = false) by (apply Qltb_ge; lra).
    apply Qltb_lt in Hw.
    assert (Hcfg : config (adaptStrategy e) =
                   {| raiseThreshold := Qmax (raiseThreshold (config e) - 0.05) 0.4;
                      callThreshold := callThreshold (config e);
                      foldThreshold := foldThreshold (config e);
                      bluffProbability := bluffProbability (config e);
                      aggressiveness := Qmin (aggressiveness (config e) + 0.1) 1.0 |}).
    { unfold adaptStrategy. now rewrite Hlo, Hw. }
    rewrite Hcfg in Hr, Ha, Hf, Hb. simpl in Hr, Ha, Hf, Hb.
    rewrite adaptStrategy_stats in Hs.
    assert (Hk : 0 <= inject_Z (Z.of_nat (S n)))
      by (change 0 with (inject_Z 0); rewrite <- Zle_Qle; lia).
    split; [|split; [|split; [exact Hf | split; [exact Hb | exact Hs]]]].
    + rewrite Hr.
      destruct (Q.max_spec (raiseThreshold (config e) - 0.05) 0.4) as [[? ->]|[? ->]];
        match goal with
        | |- Qmax ?a ?b == Qmax ?c ?d =>
            destruct (Q.max_spec a b) as [[? ->]|[? ->]];
            destruct (Q.max_spec c d) as [[? ->]|[? ->]]
        end; lra.
    + rewrite Ha.
      destruct (Q.min_spec (aggressiveness (config e) + 0.1) 1.0) as [[? ->]|[? ->]];
        match goal with
        | |- Qmin ?a ?b == Qmin ?c ?d =>
            destruct (Q.min_spec a b) as [[? ->]|[? ->]];
            destruct (Q.min_spec c d) as [[? ->]|[? ->]]
        end; lra.
Qed.

(** Loosening reaches the caps and stays there.  While the win rate is
    above 0.7, from a raise threshold of at most 1 and an aggressiveness
    that is not negative, twenty or more calls to [adaptStrategy] in a
    row leave [raiseThreshold = 0.4] and [aggressiveness = 1]; the other
    three parameters and the counters are unchanged. *)
Theorem loosening_reaches_caps n e :
  0.7 < winRate (stats e) ->
  raiseThreshold (config e) <= 1 ->
  0 <= aggressiveness (config e) ->
  (20 <= n)%nat ->
  raiseThreshold (config (adapt_times n e)) == 0.4 /\
  aggressiveness (config (adapt_times n e)) == 1 /\
  callThreshold (config (adapt_times n e)) = callThreshold (config e) /\
  foldThreshold (config (adapt_times n e)) = foldThreshold (config e) /\
  bluffProbability (config (adapt_times n e)) = bluffProbability (config e) /\
  stats (adapt_times n e) = stats e.
Proof.
  intros Hw Hr Ha Hn.
  destruct n as [|n]; [lia|].
  destruct (loosening_closed_form n e Hw) as (Er & Eg & Ef & Eb & Es).
  assert (Hk : 20 <= inject_Z (Z.of_nat (S n))).
  { change 20 with (inject_Z 20). rewrite <- Zle_Qle. lia. }
  split; [|split; [|split; [|split; [|split]]]].
  - rewrite Er. apply Q.max_r. lra.
  - rewrite Eg. apply Q.min_r. lra.
  - apply adapt_times_callThreshold.
  - exact Ef.
  - exact Eb.
  - exact Es.
Qed.

Lemma loosening_reaches_caps_witness :
  let e := {| config := getDefaultStrategy;
              stats := {| wins := 9; losses := 1; totalHands := 10;
                          successfulBluffs := 0; failedBluffs := 0 |} |} in
  raiseThreshold (config (adapt_times 20 e)) == 0.4 /\
  aggressiveness (config (adapt_times 20 e)) == 1 /\
  callThreshold (config (adapt_times 20 e)) = callThreshold (config e) /\
  foldThreshold (config (adapt_times 20 e)) = foldThreshold (config e) /\
  bluffProbability (config (adapt_times 20 e)) = bluffProbability (config e) /\
  stats (adapt_times 20 e) = stats e.
Proof.
  intros e. apply (loosening_reaches_caps 20 e).
  - reflexivity.
  - vm_compute. discriminate.
  - vm_compute. discriminate.
  - apply Nat.le_refl.
Defined.

(** Over exact rationals [EngineOver.adaptStrategy] is [adaptStrategy]. *)
Lemma adaptStrategy_over_exact e :
  EngineOver.adaptStrategy Arithmetic.exact (stats e) (EngineOver.of_config (config e))
  = EngineOver.of_config (config (adaptStrategy e)).
Proof.
  unfold EngineOver.adaptStrategy, adaptStrategy, EngineOver.winRate, winRate.
  cbn [Arithmetic.ltb Arithmetic.lit Arithmetic.div Arithmetic.exact].
  destruct (Qltb _ 0.3); [reflexivity|].
  destruct (Qltb 0.7 _); reflexivity.
Qed.

(** The same in the program's arithmetic, from the default configuration.
    On the way the doubles drift from the decimals (two tightening steps
    give 0.7000000000000001, one loosening step 0.5499999999999999), but
    after twenty steps the values are the caps themselves, and one more
    step changes nothing. *)
Example adaptation_in_doubles :
  let N := Arithmetic.double in
  let lit := Arithmetic.lit N in
  let losing := {| wins := 1; losses := 9; totalHands := 10;
                   successfulBluffs := 0; failedBluffs := 0 |} in
  let winning := {| wins := 9; losses := 1; totalHands := 10;
                    successfulBluffs := 0; failedBluffs := 0 |} in
  let start := EngineOver.getDefaultStrategy N in
  EngineOver.raiseThreshold (EngineOver.adapt_times N 2 losing start)
    = lit 0.7000000000000001 /\
  PrimFloat.eqb (EngineOver.raiseThreshold (EngineOver.adapt_times N 2 losing start))
    (lit 0.7) = false /\
  EngineOver.raiseThreshold (EngineOver.adapt_times N 1 winning start)
    = lit 0.5499999999999999 /\
  EngineOver.adapt_times N 20 losing start
    = EngineOver.Build_StrategyConfig N (lit 0.8) (lit 0.4) (lit 0.5) (lit 0.05) (lit 0.5) /\
  EngineOver.adapt_times N 21 losing start = EngineOver.adapt_times N 20 losing start /\
  EngineOver.adapt_times N 20 winning start
    = EngineOver.Build_StrategyConfig N (lit 0.4) (lit 0.4) (lit 0.3) (lit 0.15) (lit 1) /\
  EngineOver.adapt_times N 21 winning start = EngineOver.adapt_times N 20 winning start.
Proof.
  cbv zeta.
  split; [|split; [|split; [|split; [|split; [|split]]]]];
    vm_compute; reflexivity.
Qed.

(** And from the far ends of the ranges the two results allow: raise and
    fold thresholds 0 with bluff probability 1 when tightening, raise
    threshold 1 with aggressiveness 0 when loosening. *)
Example adaptation_in_doubles_from_the_ends :
  let N := Arithmetic.double in
  let lit := Arithmetic.lit N in
  let losing := {| wins := 1; losses := 9; totalHands := 10;
                   successfulBluffs := 0; failedBluffs := 0 |} in
  let winning := {| wins := 9; losses := 1; totalHands := 10;
                    successfulBluffs := 0; failedBluffs := 0 |} in
  EngineOver.adapt_times N 20 losing
    (EngineOver.Build_StrategyConfig N (lit 0) (lit 0.4) (lit 0) (lit 1) (lit 0.5))
  = EngineOver.Build_StrategyConfig N (lit 0.8) (lit 0.4) (lit 0.5) (lit 0.05) (lit 0.5) /\
  EngineOver.adapt_times N 20 winning
    (EngineOver.Build_StrategyConfig N (lit 1) (lit 0.4) (lit 0.3) (lit 0.15) (lit 0))
  = EngineOver.Build_StrategyConfig N (lit 0.4) (lit 0.4) (lit 0.3) (lit 0.15) (lit 1).
Proof. cbv zeta. split; vm_compute; reflexivity. Qed.

End EngineState.

(** ** Polling controller: what one tick does *)

Section TickShape.

Import Num PokerAgent Trace Tick Sample.
Local Open Scope Q_scope.

Ltac run_tick :=
  repeat (first [ rewrite bind_run | rewrite updateState_run
                | rewrite makeAction_run | rewrite toggleReady_run ]; simpl).

(** The trace of [autonomousDecision], case by case. *)
Lemma autonomousDecision_trace w a :
  autonomousDecision w a =
  (Returned tt, a,
   match currentState a with
   | None => []
   | Some st =>
       match to_act st with
       | None => []
       | Some me =>
           let callAmount := currentBet st - bet me in
           if has_hidden_card me then
             [SubmitAction (if Qeq_bool callAmount 0 then CHECK else FOLD) None (action_ok w)]
           else
             let hs := HandEvaluator.evaluate (holeCards me) (communityCards st) in
             let d := StrategyEngine.decide (StrategyEngine.config (strategy a)) (random w)
                        hs callAmount (pot st) (chips me) (currentBet st) (status st) in
             [Evaluate (holeCards me) (communityCards st);
              Decide hs callAmount (pot st) (chips me) (currentBet st) (status st);
              SubmitAction (StrategyEngine.action d)
                (if truthy_amount (StrategyEngine.amount d)
                 then StrategyEngine.amount d else None)
                (action_ok w)]
       end
   end).
Proof.
  unfold autonomousDecision, to_act, has_hidden_card. rewrite bind_run. simpl.
  destruct (currentState a) as [st|]; [|reflexivity].
  destruct (not_my_turn st); [reflexivity|].
  destruct (players st !! myAccount st) as [me|]; [|reflexivity].
  destruct (folded me || allIn me); [reflexivity|].
  destruct (existsb _ (holeCards me)).
  - now rewrite makeAction_run.
  - repeat (rewrite bind_run; simpl).
    match goal with
    | |- context [StrategyEngine.decide ?c ?r ?h ?ca ?p ?ch ?cb ?ph] =>
        remember (StrategyEngine.decide c r h ca p ch cb ph) as d eqn:Hd
    end.
    assert (Hamt : StrategyEngine.action d <> RAISE -> StrategyEngine.amount d = None).
    { subst d. intros Hne.
      destruct (StrategyEngine.amount _) as [x|] eqn:Hx; [|reflexivity].
      apply decide_amount_is_raise in Hx. contradiction. }
    destruct (StrategyEngine.action d) eqn:Ha;
      try (rewrite Hamt by discriminate; simpl; now rewrite makeAction_run).
    destruct (truthy_amount (StrategyEngine.amount d)); now rewrite makeAction_run.
Qed.

(** One tick, case by case. *)
Lemma pollTick_cases w a :
  pollTick w a =
  let a1 := after_fetch (fetch w) a in
  let get := GetPublicState (fetched (fetch w)) in
  match currentState a1 with
  | None => (Returned tt, a1, [get])
  | Some st =>
      if waiting_or_showdown (status st) then
        let a2 :=
          match recorded st with
          | Some won =>
              {| strategy := StrategyEngine.recordResult won (strategy a1);
                 currentState := currentState a1 |}
          | None => a1
          end in
        let rtr :=
          match recorded st with
          | Some won => [RecordResult won]
          | None => []
          end in
        if wants_ready st then
          if toggle_ok w then
            (Returned tt, after_fetch (refetch w) a2,
             get :: rtr ++ [ToggleReady true; GetPublicState (fetched (refetch w))])
          else (Thrown, a2, get :: rtr ++ [ToggleReady false])
        else (Returned tt, a2, get :: rtr)
      else (Returned tt, a1, get :: snd (autonomousDecision w a1))
  end.
Proof.
  cbv zeta. unfold pollTick. run_tick.
  destruct (currentState (after_fetch (fetch w) a)) as [st|] eqn:Hst; [|reflexivity].
  unfold wants_ready, recorded.
  destruct (waiting_or_showdown (status st)) eqn:Hws; simpl.
  - destruct (status st); try discriminate Hws;
      destruct (winner_present st) as [info|];
      destruct (players st !! myAccount st) as [me|]; try destruct (ready me);
      simpl; run_tick; try destruct (toggle_ok w); simpl; try rewrite Hst;
      try reflexivity.
  - run_tick. rewrite !autonomousDecision_trace. simpl. reflexivity.
Qed.

Ltac tick_cases w a :=
  rewrite (pollTick_cases w a); cbv zeta;
  try rewrite (autonomousDecision_trace w (after_fetch (fetch w) a)).

(** The call budget of one tick: at most one action submission, one ready
    toggle and one recorded result, and one or two state fetches; and the
    calls to the evaluator and to the strategy are either none at all or
    exactly one [evaluate] followed by exactly one [decide]. *)
Theorem tick_call_budget w a :
  (count is_submission (snd (pollTick w a)) <= 1)%nat /\
  (count is_toggle (snd (pollTick w a)) <= 1)%nat /\
  (count is_recordResult (snd (pollTick w a)) <= 1)%nat /\
  (1 <= count is_fetch (snd (pollTick w a)) <= 2)%nat /\
  (List.filter is_thinking (snd (pollTick w a)) = [] \/
   exists holeCards communityCards hs callAmount pot chips currentBet phase,
     List.filter is_thinking (snd (pollTick w a)) =
     [Evaluate holeCards communityCards;
      Decide hs callAmount pot chips currentBet phase]).
Proof.
  tick_cases w a. unfold count.
  destruct (currentState (after_fetch (fetch w) a)) as [st|]; simpl;
    [|repeat split; auto; lia].
  destruct (waiting_or_showdown (status st)); simpl.
  - destruct (recorded st), (wants_ready st); try destruct (toggle_ok w); simpl;
      repeat split; auto; lia.
  - destruct (to_act st) as [me|]; [destruct (has_hidden_card me)|]; simpl;
      repeat split; auto; try lia.
    right. repeat eexists.
Qed.

(** The two halves of the loop never mix.  In the lobby or at a showdown a
    tick submits no action and calls neither the evaluator nor the
    strategy; on a betting street it records no result, toggles nothing,
    fetches once, returns, and leaves the strategy engine as it was. *)
Theorem tick_phase_separation w a st :
  held w a = Some st ->
  (waiting_or_showdown (status st) = true ->
   count is_submission (snd (pollTick w a)) = 0%nat /\
   count is_thinking (snd (pollTick w a)) = 0%nat) /\
  (waiting_or_showdown (status st) = false ->
   count is_toggle (snd (pollTick w a)) = 0%nat /\
   count is_recordResult (snd (pollTick w a)) = 0%nat /\
   count is_fetch (snd (pollTick w a)) = 1%nat /\
   fst (pollTick w a) = (Returned tt, after_fetch (fetch w) a)).
Proof.
  unfold held. intros Hst. tick_cases w a. rewrite Hst. unfold count.
  split; intros Hws; rewrite Hws.
  - destruct (recorded st), (wants_ready st); try destruct (toggle_ok w);
      simpl; auto.
  - destruct (to_act st) as [me|]; [destruct (has_hidden_card me)|]; simpl; auto.
Qed.

Lemma tick_phase_separation_witness :
  (waiting_or_showdown (status flop_to_act) = true ->
   count is_submission (snd (pollTick (answers (Some flop_to_act) true) PokerAgent.new)) = 0%nat /\
   count is_thinking (snd (pollTick (answers (Some flop_to_act) true) PokerAgent.new)) = 0%nat) /\
  (waiting_or_showdown (status flop_to_act) = false ->
   count is_toggle (snd (pollTick (answers (Some flop_to_act) true) PokerAgent.new)) = 0%nat /\
   count is_recordResult (snd (pollTick (answers (Some flop_to_act) true) PokerAgent.new)) = 0%nat /\
   count is_fetch (snd (pollTick (answers (Some flop_to_act) true) PokerAgent.new)) = 1%nat /\
   fst (pollTick (answers (Some flop_to_act) true) PokerAgent.new) =
   (Returned tt, after_fetch (fetch (answers (Some flop_to_act) true)) PokerAgent.new)).
Proof.
  apply (tick_phase_separation (answers (Some flop_to_act) true) PokerAgent.new flop_to_act).
  reflexivity.
Defined.

(** A tick throws exactly when it attempts the ready toggle and the toggle
    is rejected; the toggle is attempted exactly when the held snapshot is
    in the lobby or at a showdown with this agent present and not ready. *)
Theorem tick_throws_iff_toggle_rejected w a :
  (fst (fst (pollTick w a)) = Thrown <-> In (ToggleReady false) (snd (pollTick w a))) /\
  (forall ok, In (ToggleReady ok) (snd (pollTick w a)) <->
     ok = toggle_ok w /\ exists st, held w a = Some st /\ wants_ready st = true).
Proof.
  unfold held. tick_cases w a.
  destruct (currentState (after_fetch (fetch w) a)) as [st|]; simpl.
  2:{ split; [|intros ok]; split; try discriminate.
      - intros [H|[]]; discriminate H.
      - intros [H|[]]; discriminate H.
      - intros (_ & st & H & _). discriminate H. }
  destruct (waiting_or_showdown (status st)) eqn:Hws; simpl.
  - destruct (wants_ready st) eqn:Hwr.
    + destruct (toggle_ok w); simpl; split.
      * split; [discriminate|]. intros [H|H]; [discriminate H|].
        apply in_app_or in H as [H|H].
        -- destruct (recorded st); simpl in H; [destruct H as [H|[]]; discriminate H | destruct H].
        -- destruct H as [H|[H|[]]]; discriminate H.
      * intros ok. split.
        -- intros [H|H]; [discriminate H|].
           apply in_app_or in H as [H|H].
           ++ destruct (recorded st); simpl in H; [destruct H as [H|[]]; discriminate H | destruct H].
           ++ destruct H as [H|[H|[]]]; [|discriminate H].
              injection H as <-. eauto.
        -- intros (-> & _). right. apply in_or_app. right. now left.
      * split; [|reflexivity]. intros _. right. apply in_or_app. right. now left.
      * intros ok. split.
        -- intros [H|H]; [discriminate H|].
           apply in_app_or in H as [H|H].
           ++ destruct (recorded st); simpl in H; [destruct H as [H|[]]; discriminate H | destruct H].
           ++ destruct H as [H|[]]. injection H as <-. eauto.
        -- intros (-> & _). right. apply in_or_app. right. now left.
    + assert (Hno : forall ok,
                ~ In (ToggleReady ok)
                    (GetPublicState (fetched (fetch w))
                     :: match recorded st with
                        | Some won => [RecordResult won]
                        | None => []
                        end)).
      { intros ok [H|H]; [discriminate H|].
        destruct (recorded st); simpl in H; [destruct H as [H|[]]; discriminate H | destruct H]. }
      split; [|intros ok]; split; try discriminate.
      * intros H. now apply Hno in H.
      * intros H. now apply Hno in H.
      * intros (_ & st' & Hst' & Hwr'). injection Hst' as <-. congruence.
  - assert (Hwr : wants_ready st = false) by (unfold wants_ready; now rewrite Hws).
    assert (Hno : forall ok,
              ~ In (ToggleReady ok)
                  (GetPublicState (fetched (fetch w))
                   :: match to_act st with
                      | Some me =>
                          let callAmount := currentBet st - bet me in
                          if has_hidden_card me
                          then [SubmitAction (if Qeq_bool callAmount 0 then CHECK else FOLD)
                                  None (action_ok w)]
                          else
                            let hs := HandEvaluator.evaluate (holeCards me) (communityCards st) in
                            let d := StrategyEngine.decide
                                       (StrategyEngine.config (strategy (after_fetch (fetch w) a)))
                                       (random w) hs callAmount (pot st) (chips me)
                                       (currentBet st) (status st) in
                            [Evaluate (holeCards me) (communityCards st);
                             Decide hs callAmount (pot st) (chips me) (currentBet st) (status st);
                             SubmitAction (StrategyEngine.action d)
                               (if truthy_amount (StrategyEngine.amount d)
                                then StrategyEngine.amount d else None)
                               (action_ok w)]
                      | None => []
                      end)).
    { intros ok [H|H]; [discriminate H|].
      destruct (to_act st) as [me|]; [|destruct H].
      cbv zeta in H. destruct (has_hidden_card me); simpl in H;
        repeat (destruct H as [H|H]; [discriminate H|]); destruct H. }
    split; [|intros ok]; split; try discriminate.
    + intros H. now apply Hno in H.
    + intros H. now apply Hno in H.
    + intros (_ & st' & Hst' & Hwr'). injection Hst' as <-. congruence.
Qed.

Lemma append_String (c : Ascii.ascii) (s t : string) :
  (String c s ++ t)%string = String c (s ++ t)%string.
Proof. reflexivity. Qed.

Lemma append_empty (t : string) : ("" ++ t)%string = t.
Proof. reflexivity. Qed.

Lemma prefix_app (sub s : string) :
  String.prefix sub s = true <-> exists post, s = (sub ++ post)%string.
Proof.
  revert s. induction sub as [|c sub IH]; intros s; simpl.
  - split; [intros _; now exists s | intros _; now destruct s].
  - destruct s as [|c' s].
    + split; [discriminate | intros [post H]; discriminate H].
    + simpl. destruct (Ascii.ascii_dec c c') as [->|Hne].
      * rewrite IH. split; intros [post H]; exists post;
          rewrite append_String in *; congruence.
      * split; [discriminate | intros [post H]; rewrite append_String in H; congruence].
Qed.

Lemma includes_nil (sub : string) :
  includes sub "" = String.prefix sub "" || false.
Proof. reflexivity. Qed.

Lemma includes_cons (sub : string) (c : Ascii.ascii) (s : string) :
  includes sub (String c s) = String.prefix sub (String c s) || includes sub s.
Proof. reflexivity. Qed.

(** [includes] is the substring test of [String.prototype.includes]. *)
Lemma includes_substring (sub s : string) :
  includes sub s = true <-> exists pre post, s = (pre ++ sub ++ post)%string.
Proof.
  induction s as [|c s IH].
  - rewrite includes_nil, orb_false_r, prefix_app. split.
    + intros [post H]. now exists ""%string, post.
    + intros (pre & post & H). destruct pre as [|c pre]; [|discriminate H].
      now exists post.
  - rewrite includes_cons, orb_true_iff, prefix_app, IH. split.
    + intros [[post H] | (pre & post & H)].
      * now exists ""%string, post.
      * exists (String c pre), post. rewrite append_String. now rewrite H.
    + intros (pre & post & H). destruct pre as [|c' pre].
      * left. now exists post.
      * right. rewrite append_String in H. injection H as _ H. now exists pre, post.
Qed.

(** A tick records a result exactly when the snapshot it holds after the
    fetch is a showdown whose winner information is a non-empty string,
    and the result is a win exactly when this agent's account occurs
    somewhere inside that string.  In particular an empty winner string is
    treated like a missing one, and an account that is a substring of the
    winner's name counts as the winner. *)
Theorem tick_records_iff_showdown w a won :
  In (RecordResult won) (snd (pollTick w a)) <->
  exists st info,
    held w a = Some st /\ status st = SHOWDOWN /\
    winnerInfo st = Some info /\ info <> ""%string /\
    (won = true <->
     exists pre post, info = (pre ++ myAccount st ++ post)%string).
Proof.
  assert (Hrec : forall st,
    recorded st = Some won <->
    exists info, status st = SHOWDOWN /\ winnerInfo st = Some info /\
                 info <> ""%string /\
                 (won = true <->
                  exists pre post, info = (pre ++ myAccount st ++ post)%string)).
  { intros st. unfold recorded, winner_present. split.
    - destruct (status st); try discriminate.
      destruct (winnerInfo st) as [info|]; [|discriminate].
      destruct (String.eqb info "") eqn:E; [discriminate|].
      intros H. injection H as <-. exists info.
      apply String.eqb_neq in E. repeat split; auto;
        now rewrite <- includes_substring.
    - intros (info & -> & -> & Hne & Hwon).
      apply String.eqb_neq in Hne. rewrite Hne. f_equal.
      rewrite <- includes_substring in Hwon.
      destruct (includes (myAccount st) info), won; intuition congruence. }
  unfold held. tick_cases w a.
  destruct (currentState (after_fetch (fetch w) a)) as [st|]; simpl.
  2:{ split.
      - intros [H|[]]; discriminate H.
      - intros (st & info & H & _). discriminate H. }
  assert (Hin : forall rest,
    (forall ev, In ev rest -> is_recordResult ev = false) ->
    (In (RecordResult won)
        (GetPublicState (fetched (fetch w))
         :: match recorded st with
            | Some won0 => [RecordResult won0]
            | None => []
            end ++ rest)
     <-> recorded st = Some won)).
  { intros rest Hrest. split.
    - intros [H|H]; [discriminate H|].
      apply in_app_or in H as [H|H].
      + destruct (recorded st); simpl in H; [|destruct H].
        destruct H as [H|[]]. congruence.
      + apply Hrest in H. discriminate H.
    - intros ->. right. apply in_or_app. left. now left. }
  destruct (waiting_or_showdown (status st)) eqn:Hws; simpl.
  - transitivity (recorded st = Some won).
    + destruct (wants_ready st); [destruct (toggle_ok w)|]; simpl.
      * apply Hin. intros ev [<-|[<-|[]]]; reflexivity.
      * apply Hin. intros ev [<-|[]]; reflexivity.
      * rewrite <- (Hin []); [now rewrite app_nil_r | intros ev []].
    + rewrite Hrec. split.
      * intros (info & H). exists st, info. intuition.
      * intros (st' & info & Hst' & H). injection Hst' as <-. now exists info.
  - split.
    + intros [H|H]; [discriminate H|]. exfalso.
      destruct (to_act st) as [me|]; [|destruct H].
      cbv zeta in H. destruct (has_hidden_card me); simpl in H;
        repeat (destruct H as [H|H]; [discriminate H|]); destruct H.
    + intros (st' & info & Hst' & Hsd & _). injection Hst' as <-.
      rewrite Hsd in Hws. discriminate Hws.
Qed.

(** Nothing to do: on a betting street, when it is not this agent's turn,
    or the agent has no seat record, or it has folded or is all-in, the
    tick is the fetch and nothing else. *)
Theorem tick_idle_out_of_turn w a st :
  held w a = Some st ->
  waiting_or_showdown (status st) = false ->
  (seat_at st <> Some (myAccount st) \/
   players st !! myAccount st = None \/
   exists me, players st !! myAccount st = Some me /\
              (folded me = true \/ allIn me = true)) ->
  pollTick w a =
  (Returned tt, after_fetch (fetch w) a, [GetPublicState (fetched (fetch w))]).
Proof.
  unfold held. intros Hst Hws Hidle. tick_cases w a. rewrite Hst, Hws.
  assert (Hact : to_act st = None).
  { unfold to_act, not_my_turn.
    destruct Hidle as [Hseat | [Hnone | (me & Hme & Hout)]].
    - destruct (seat_at st) as [s|]; [|reflexivity].
      destruct (String.eqb s (myAccount st)) eqn:E; [|reflexivity].
      apply String.eqb_eq in E. congruence.
    - rewrite Hnone. now destruct (match seat_at st with Some _ => _ | None => _ end).
    - rewrite Hme.
      assert (folded me || allIn me = true) as ->
        by (destruct Hout as [-> | ->]; [reflexivity | apply orb_true_r]).
      now destruct (match seat_at st with Some _ => _ | None => _ end). }
  now rewrite Hact.
Qed.

Lemma tick_idle_out_of_turn_witness :
  let st := snapshot FLOP (alice ["AS"; "KS"] true) [] None in
  let st' :=
    {| status := status st; players := players st; seats := seats st;
       dealerIndex := dealerIndex st; currentTurn := 1; pot := pot st;
       communityCards := communityCards st; currentBet := currentBet st;
       minRaise := minRaise st; actionLog := actionLog st;
       winnerInfo := winnerInfo st; myAccount := myAccount st |} in
  pollTick (answers (Some st') true) PokerAgent.new =
  (Returned tt, after_fetch (fetch (answers (Some st') true)) PokerAgent.new,
   [GetPublicState (fetched (fetch (answers (Some st') true)))]).
Proof.
  intros st st'.
  apply (tick_idle_out_of_turn (answers (Some st') true) PokerAgent.new st').
  - reflexivity.
  - reflexivity.
  - left. vm_compute. discriminate.
Defined.

(** The main path.  On a betting street, when it is this agent's turn, the
    agent is neither folded nor all-in and sees both its cards, the tick
    evaluates the hand, asks the strategy engine with
    [callAmount = currentBet - bet], the snapshot's pot and current bet and
    the agent's own stack, and submits the action it gets.  The amount of
    a RAISE is passed on unless it is zero, in which case RAISE is
    submitted without an amount. *)
Theorem tick_plays_the_decision w a st me :
  held w a = Some st ->
  waiting_or_showdown (status st) = false ->
  seat_at st = Some (myAccount st) ->
  players st !! myAccount st = Some me ->
  folded me = false ->
  allIn me = false ->
  ~ In HandEvaluator.HIDDEN (holeCards me) ->
  let hs := HandEvaluator.evaluate (holeCards me) (communityCards st) in
  let callAmount := currentBet st - bet me in
  let d := StrategyEngine.decide (StrategyEngine.config (strategy a)) (random w)
             hs callAmount (pot st) (chips me) (currentBet st) (status st) in
  pollTick w a =
  (Returned tt, after_fetch (fetch w) a,
   [GetPublicState (fetched (fetch w));
    Evaluate (holeCards me) (communityCards st);
    Decide hs callAmount (pot st) (chips me) (currentBet st) (status st);
    SubmitAction (StrategyEngine.action d)
      match StrategyEngine.amount d with
      | Some x => if Qeq_bool x 0 then None else Some x
      | None => None
      end
      (action_ok w)]).
Proof.
  unfold held. intros Hst Hws Hseat Hme Hfold Hall Hvis. cbv zeta.
  tick_cases w a. rewrite Hst, Hws.
  assert (Hact : to_act st = Some me).
  { unfold to_act, not_my_turn. rewrite Hseat, String.eqb_refl, Hme, Hfold, Hall.
    reflexivity. }
  assert (Hhid : has_hidden_card me = false).
  { unfold has_hidden_card. destruct (existsb _ (holeCards me)) eqn:E; [|reflexivity].
    apply existsb_exists in E as (c & Hc & Heq). apply String.eqb_eq in Heq.
    subst c. contradiction. }
  rewrite Hact. cbv zeta. rewrite Hhid, after_fetch_strategy. simpl.
  unfold truthy_amount.
  destruct (StrategyEngine.amount _) as [x|]; [destruct (Qeq_bool x 0)|]; reflexivity.
Qed.

Lemma tick_plays_the_decision_witness :
  let w := answers (Some flop_to_act) true in
  let me := alice ["AS"; "AH"] true in
  let hs := HandEvaluator.evaluate (holeCards me) (communityCards flop_to_act) in
  let callAmount := currentBet flop_to_act - bet me in
  let d := StrategyEngine.decide (StrategyEngine.config (strategy PokerAgent.new))
             (random w) hs callAmount (pot flop_to_act) (chips me)
             (currentBet flop_to_act) (status flop_to_act) in
  pollTick w PokerAgent.new =
  (Returned tt, after_fetch (fetch w) PokerAgent.new,
   [GetPublicState (fetched (fetch w));
    Evaluate (holeCards me) (communityCards flop_to_act);
    Decide hs callAmount (pot flop_to_act) (chips me) (currentBet flop_to_act)
      (status flop_to_act);
    SubmitAction (StrategyEngine.action d)
      match StrategyEngine.amount d with
      | Some x => if Qeq_bool x 0 then None else Some x
      | None => None
      end
      (action_ok w)]).
Proof.
  intros w me.
  apply (tick_plays_the_decision w PokerAgent.new flop_to_act me); try reflexivity.
  simpl. intros [H|[H|[]]]; discriminate H.
Defined.

(** Whether the server accepts or rejects the submitted action changes
    neither how the tick ends nor the agent it leaves behind: a rejection
    is swallowed, nothing is retried and nothing is remembered. *)
Theorem rejected_action_is_contained w a :
  fst (pollTick (with_action_ok false w) a) = fst (pollTick (with_action_ok true w) a) /\
  map is_submission (snd (pollTick (with_action_ok false w) a)) =
  map is_submission (snd (pollTick (with_action_ok true w) a)).
Proof.
  rewrite (pollTick_cases (with_action_ok false w) a),
          (pollTick_cases (with_action_ok true w) a).
  cbv zeta. rewrite !autonomousDecision_trace. unfold with_action_ok. simpl.
  destruct (currentState (after_fetch (fetch w) a)) as [st|]; [|split; reflexivity].
  destruct (waiting_or_showdown (status st)).
  - destruct (wants_ready st); [destruct (toggle_ok w)|]; split; reflexivity.
  - destruct (to_act st) as [me|]; [|split; reflexivity].
    cbv zeta. destruct (has_hidden_card me); split; reflexivity.
Qed.

(** The snapshot an agent holds after a tick: the one returned by the
    fetch that follows a successful ready toggle when that fetch succeeds,
    otherwise the one held after the first fetch. *)
Theorem tick_final_snapshot w a :
  currentState (snd (fst (pollTick w a))) =
  match held w a with
  | Some st =>
      if wants_ready st && toggle_ok w then
        match refetch w with
        | Some st' => Some st'
        | None => Some st
        end
      else Some st
  | None => None
  end.
Proof.
  unfold held. tick_cases w a.
  destruct (currentState (after_fetch (fetch w) a)) as [st|] eqn:Hst; simpl;
    [|exact Hst].
  destruct (waiting_or_showdown (status st)) eqn:Hws; simpl.
  - destruct (wants_ready st); [destruct (toggle_ok w)|]; simpl.
    + destruct (refetch w); simpl; [reflexivity|].
      destruct (recorded st); simpl; first [reflexivity | exact Hst].
    + destruct (recorded st); simpl; first [reflexivity | exact Hst].
    + destruct (recorded st); simpl; first [reflexivity | exact Hst].
  - assert (wants_ready st = false) as -> by (unfold wants_ready; now rewrite Hws).
    simpl. exact Hst.
Qed.

(** The strategy engine after a tick: one [recordResult] when the tick
    recorded, untouched otherwise.  The configuration never changes,
    because the call to [adaptStrategy] is commented out in
    [recordResult] and the loop never calls it. *)
Lemma tick_strategy w a :
  strategy (snd (fst (pollTick w a))) =
  match List.filter is_recordResult (snd (pollTick w a)) with
  | RecordResult won :: _ => StrategyEngine.recordResult won (strategy a)
  | _ => strategy a
  end /\
  (count is_recordResult (snd (pollTick w a)) <= 1)%nat.
Proof.
  tick_cases w a. unfold count.
  destruct (currentState (after_fetch (fetch w) a)) as [st|]; simpl;
    [|rewrite after_fetch_strategy; auto].
  destruct (waiting_or_showdown (status st)); simpl.
  - destruct (recorded st), (wants_ready st); try destruct (toggle_ok w); simpl;
      rewrite ?after_fetch_strategy; simpl; rewrite ?after_fetch_strategy; auto.
  - destruct (to_act st) as [me|]; [destruct (has_hidden_card me)|]; simpl;
      rewrite after_fetch_strategy; auto.
Qed.

(** Over any run of ticks the strategy configuration stays what it was
    (adaptive learning is never triggered by the loop), [totalHands] grows
    by exactly the number of recorded results, and counters that were
    consistent stay consistent. *)
Theorem pollLoop_keeps_config ws a :
  StrategyEngine.config (strategy (fst (pollLoop ws a))) =
  StrategyEngine.config (strategy a) /\
  StrategyEngine.totalHands (StrategyEngine.stats (strategy (fst (pollLoop ws a)))) =
  (StrategyEngine.totalHands (StrategyEngine.stats (strategy a)) +
   count is_recordResult (events (snd (pollLoop ws a))))%nat /\
  (Invariants.counters_consistent (StrategyEngine.stats (strategy a)) ->
   Invariants.counters_consistent
     (StrategyEngine.stats (strategy (fst (pollLoop ws a))))).
Proof.
  revert a. induction ws as [|w ws IH]; intros a; simpl.
  - unfold count. simpl. split; [reflexivity | split; [lia | trivial]].
  - destruct (tick_strategy w a) as [Hs Hc].
    destruct (pollTick w a) as [[r a1] tr]. simpl in Hs, Hc.
    specialize (IH a1). destruct (pollLoop ws a1) as [a2 rest]. simpl in *.
    destruct IH as (IHc & IHt & IHi).
    unfold events, count in *. simpl. rewrite List.filter_app, List.length_app.
    rewrite IHc, IHt.
    destruct (List.filter is_recordResult tr) as [|ev tl] eqn:Hf.
    + rewrite Hs in *. simpl. split; [reflexivity | split; [reflexivity | exact IHi]].
    + assert (Hev : is_recordResult ev = true).
      { assert (Hin : In ev (List.filter is_recordResult tr)) by (rewrite Hf; now left).
        now apply List.filter_In in Hin. }
      destruct ev; try discriminate Hev.
      destruct tl; [|simpl in Hc; lia].
      rewrite Hs in *. simpl. split; [reflexivity | split; [lia|]].
      intros Hcons. apply IHi.
      apply (call_counters (StrategyEngine.CallRecordResult won) (strategy a) Hcons).
Qed.

End TickShape.

(** ** Hand evaluator *)

Section EvaluatorFacts.

Import HandEvaluator Cards.
Local Open Scope Z_scope.

(** The strength is always between 0.3 and 1, for any cards whatever,
    including unknown ranks, repeated cards and more than seven cards. *)
Theorem evaluate_range holeCards communityCards :
  (0.3 <= evaluate holeCards communityCards)%Q /\
  (evaluate holeCards communityCards <= 1)%Q.
Proof.
  unfold evaluate.
  destruct (length _ <? 2)%nat; [split; lra|].
  cbv zeta.
  repeat match goal with
         | |- context [if ?b then _ else _] => destruct b
         end;
    (split; [apply Q.min_glb; lra | eapply Qle_trans; [apply Q.le_min_r | lra]]).
Qed.

Lemma visible_cards_app l1 l2 :
  visible_cards (l1 ++ l2) = visible_cards l1 ++ visible_cards l2.
Proof. apply List.filter_app. Qed.

Lemma visible_cards_idem l : visible_cards (visible_cards l) = visible_cards l.
Proof.
  unfold visible_cards. induction l as [|c l IH]; simpl; [reflexivity|].
  destruct (negb (String.eqb c HIDDEN)) eqn:E; simpl; rewrite ?E, IH; reflexivity.
Qed.

(** Hidden cards carry no information: the strength is that of the
    visible cards alone, and with fewer than two visible cards it is
    exactly 0.3. *)
Theorem evaluate_ignores_hidden_cards holeCards communityCards :
  evaluate holeCards communityCards =
  evaluate (visible_cards holeCards) (visible_cards communityCards) /\
  ((length (visible_cards (holeCards ++ communityCards)) < 2)%nat ->
   evaluate holeCards communityCards = 0.3%Q).
Proof.
  split.
  - unfold evaluate.
    change (List.filter (fun c => negb (String.eqb c HIDDEN))
              (visible_cards holeCards ++ visible_cards communityCards))
      with (visible_cards (visible_cards holeCards ++ visible_cards communityCards)).
    rewrite <- visible_cards_app, visible_cards_idem. reflexivity.
  - intros Hlen. unfold evaluate.
    change (List.filter (fun c => negb (String.eqb c HIDDEN))
              (holeCards ++ communityCards))
      with (visible_cards (holeCards ++ communityCards)).
    apply Nat.ltb_lt in Hlen. now rewrite Hlen.
Qed.

Lemma evaluate_ignores_hidden_cards_witness :
  evaluate ["AS"; "??"] ["??"; "??"; "??"] =
  evaluate (visible_cards ["AS"; "??"]) (visible_cards ["??"; "??"; "??"]) /\
  ((length (visible_cards (["AS"; "??"] ++ ["??"; "??"; "??"])) < 2)%nat ->
   evaluate ["AS"; "??"] ["??"; "??"; "??"] = 0.3%Q).
Proof.
  apply (evaluate_ignores_hidden_cards ["AS"; "??"] ["??"; "??"; "??"]).
Defined.

(** *** Reading a card *)

Lemma substring_S_cons n m a s :
  String.substring (S n) m (String a s) = String.substring n m s.
Proof. reflexivity. Qed.

Lemma substring_0_S_cons m a s :
  String.substring 0 (S m) (String a s) = String a (String.substring 0 m s).
Proof. reflexivity. Qed.

(** A card splits into its rank part and its suit part without loss:
    [c.slice(0, -1) + c.slice(-1)] is [c] again, and the suit part is the
    single last code unit of a non-empty card. *)
Theorem card_splits_without_loss (c : string) :
  (slice_init c ++ slice_last c)%string = c /\
  String.length (slice_last c) = (if String.eqb c "" then 0 else 1)%nat.
Proof.
  unfold slice_init, slice_last.
  induction c as [|a c IH]; [split; reflexivity|].
  destruct c as [|b c'].
  - split; reflexivity.
  - replace (String.length (String a (String b c')) - 1)%nat
      with (S (String.length (String b c') - 1)) by (simpl; lia).
    rewrite substring_0_S_cons, substring_S_cons.
    destruct IH as [IH1 IH2]. split.
    + rewrite append_String. now rewrite IH1.
    + rewrite IH2. reflexivity.
Qed.

(** *** Order of the cards *)

Ltac split_compare :=
  repeat (simpl;
          match goal with
          | |- context [?x =? ?y] => destruct (Z.eqb_spec x y)
          | |- context [?x <? ?y] => destruct (Z.ltb_spec x y)
          end).

Lemma bump_rank_comm a b m :
  bump_rank a (bump_rank b m) = bump_rank b (bump_rank a m).
Proof.
  induction m as [|[k n] m IH]; split_compare; subst;
    try lia; try reflexivity; try (now rewrite IH);
    repeat f_equal; lia.
Qed.

Lemma fold_left_perm {A B : Type} (f : B -> A -> B) :
  (forall m x y, f (f m x) y = f (f m y) x) ->
  forall l l', Permutation l l' -> forall m, fold_left f l m = fold_left f l' m.
Proof.
  intros Hcomm l l' Hp. induction Hp; intros m; simpl.
  - reflexivity.
  - apply IHHp.
  - now rewrite Hcomm.
  - now rewrite IHHp1.
Qed.

Lemma fold_right_perm {A B : Type} (f : A -> B -> B) :
  (forall x y m, f x (f y m) = f y (f x m)) ->
  forall l l', Permutation l l' -> forall m, fold_right f m l = fold_right f m l'.
Proof.
  intros Hcomm l l' Hp. induction Hp; intros m; simpl.
  - reflexivity.
  - now rewrite IHHp.
  - apply Hcomm.
  - now rewrite IHHp1.
Qed.

Lemma count_ranks_perm l l' :
  Permutation l l' -> count_ranks l = count_ranks l'.
Proof.
  intros Hp. unfold count_ranks. apply fold_left_perm; [|exact Hp].
  intros m x y. apply bump_rank_comm.
Qed.

Lemma insert_desc_comm x y l :
  insert_desc x (insert_desc y l) = insert_desc y (insert_desc x l).
Proof.
  induction l as [|z l IH]; split_compare;
    try lia; try reflexivity; try (now rewrite IH);
    assert (x = y) by lia; subst; reflexivity.
Qed.

Lemma sort_desc_perm l l' :
  Permutation l l' -> sort_desc l = sort_desc l'.
Proof.
  intros Hp. unfold sort_desc. apply fold_right_perm; [|exact Hp].
  intros x y m. apply insert_desc_comm.
Qed.

Lemma max_of_perm l l' : Permutation l l' -> max_of l = max_of l'.
Proof.
  intros Hp. unfold max_of. apply fold_right_perm; [|exact Hp].
  intros x y m. lia.
Qed.

Lemma bump_suit_comm s1 s2 (m : gmap string Z) :
  bump_suit s1 (bump_suit s2 m) = bump_suit s2 (bump_suit s1 m).
Proof.
  unfold bump_suit. apply map_eq. intros k.
  destruct (decide (s1 = s2)) as [->|Hne]; [reflexivity|].
  rewrite !(lookup_insert_ne _ s1 s2), !(lookup_insert_ne _ s2 s1) by congruence.
  destruct (decide (k = s1)) as [->|H1].
  - rewrite lookup_insert_eq, lookup_insert_ne, lookup_insert_eq by congruence.
    reflexivity.
  - rewrite (lookup_insert_ne _ s1 k) by congruence.
    destruct (decide (k = s2)) as [->|H2].
    + now rewrite !lookup_insert_eq.
    + now rewrite !lookup_insert_ne by congruence.
Qed.

Lemma count_suits_perm l l' :
  Permutation l l' -> count_suits l = count_suits l'.
Proof.
  intros Hp. unfold count_suits. apply fold_left_perm; [|exact Hp].
  intros m x y. apply bump_suit_comm.
Qed.

(** [set_of seen xs] keeps, without repetition, the elements of [xs] that
    are not in [seen]. *)
Lemma set_of_In seen xs x :
  In x (set_of seen xs) <-> In x xs /\ ~ In x seen.
Proof.
  revert seen. induction xs as [|y xs IH]; intros seen; simpl.
  - tauto.
  - destruct (existsb (Z.eqb y) seen) eqn:E.
    + apply existsb_exists in E as (z & Hz & Hyz). apply Z.eqb_eq in Hyz. subst z.
      rewrite IH. split.
      * intros [H1 H2]. auto.
      * intros [[<-|H1] H2]; [contradiction | auto].
    + assert (Hy : ~ In y seen).
      { intros Hin. assert (existsb (Z.eqb y) seen = true); [|congruence].
        apply existsb_exists. exists y. split; [exact Hin | apply Z.eqb_refl]. }
      simpl. rewrite IH. simpl. split.
      * intros [<-|[H1 H2]]; [auto|]. split; [auto|]. intros H3. apply H2. now right.
      * intros [[<-|H1] H2]; [now left|].
        destruct (Z.eq_dec y x) as [->|Hne]; [now left|].
        right. split; [exact H1|]. intros [H3|H3]; [contradiction | contradiction].
Qed.

Lemma set_of_NoDup seen xs : List.NoDup (set_of seen xs).
Proof.
  revert seen. induction xs as [|y xs IH]; intros seen; simpl.
  - constructor.
  - destruct (existsb (Z.eqb y) seen); [apply IH|].
    constructor; [|apply IH].
    rewrite set_of_In. intros [_ H]. apply H. now left.
Qed.

Lemma set_of_perm l l' :
  Permutation l l' -> Permutation (set_of [] l) (set_of [] l').
Proof.
  intros Hp. apply Permutation.NoDup_Permutation; try apply set_of_NoDup.
  intros x. rewrite !set_of_In. split; intros [H1 H2]; split; auto.
  - now apply (Permutation_in _ Hp).
  - now apply (Permutation_in _ (Permutation_sym Hp)).
Qed.

Lemma visible_cards_perm l l' :
  Permutation l l' -> Permutation (visible_cards l) (visible_cards l').
Proof.
  unfold visible_cards. intros Hp. induction Hp; simpl.
  - constructor.
  - destruct (negb _); [now constructor | assumption].
  - destruct (negb (String.eqb y HIDDEN)), (negb (String.eqb x HIDDEN));
      try reflexivity; try apply perm_swap.
  - etransitivity; eassumption.
Qed.

(** The strength depends neither on the order of the cards nor on which
    of them are hole cards and which are community cards. *)
Theorem evaluate_order_independent h1 c1 h2 c2 :
  Permutation (h1 ++ c1) (h2 ++ c2) -> evaluate h1 c1 = evaluate h2 c2.
Proof.
  intros Hp. apply visible_cards_perm in Hp. unfold evaluate.
  change (List.filter (fun c => negb (String.eqb c HIDDEN)) (h1 ++ c1))
    with (visible_cards (h1 ++ c1)).
  change (List.filter (fun c => negb (String.eqb c HIDDEN)) (h2 ++ c2))
    with (visible_cards (h2 ++ c2)).
  set (v1 := visible_cards (h1 ++ c1)) in *.
  set (v2 := visible_cards (h2 ++ c2)) in *.
  rewrite (Permutation_length Hp).
  assert (Hr : Permutation (map (fun c => normalizeRank (slice_init c)) v1)
                 (map (fun c => normalizeRank (slice_init c)) v2))
    by now apply Permutation_map.
  assert (Hs : Permutation (map slice_last v1) (map slice_last v2))
    by now apply Permutation_map.
  rewrite (count_ranks_perm _ _ Hr), (count_suits_perm _ _ Hs),
    (max_of_perm _ _ Hr), (sort_desc_perm _ _ (set_of_perm _ _ Hr)).
  reflexivity.
Qed.

Lemma evaluate_order_independent_witness :
  evaluate ["KS"; "7H"] ["KD"; "2C"; "9S"] = evaluate ["9S"; "KD"; "2C"] ["7H"; "KS"].
Proof.
  apply (evaluate_order_independent ["KS"; "7H"] ["KD"; "2C"; "9S"]
           ["9S"; "KD"; "2C"] ["7H"; "KS"]).
  simpl.
  apply (Permutation_trans (l' := "9S" :: ["KS"; "7H"; "KD"; "2C"])).
  - apply Permutation_sym. apply (Permutation_middle ["KS"; "7H"; "KD"; "2C"] [] "9S").
  - apply perm_skip.
    apply (Permutation_trans (l' := "KD" :: ["KS"; "7H"; "2C"])).
    + apply Permutation_sym. apply (Permutation_middle ["KS"; "7H"] ["2C"] "KD").
    + apply perm_skip.
      apply (Permutation_trans (l' := "2C" :: ["KS"; "7H"])).
      * apply Permutation_sym. apply (Permutation_middle ["KS"; "7H"] [] "2C").
      * apply perm_skip. apply perm_swap.
Defined.

(** *** Straights *)

Lemma insert_desc_In x y l : In y (insert_desc x l) <-> y = x \/ In y l.
Proof.
  induction l as [|z l IH]; simpl.
  - intuition.
  - destruct (z <? x); simpl; [intuition|]. rewrite IH. intuition.
Qed.

Lemma sort_desc_In y l : In y (sort_desc l) <-> In y l.
Proof.
  induction l as [|x l IH]; simpl; [tauto|].
  rewrite insert_desc_In, IH. intuition.
Qed.

Lemma insert_desc_length x l : length (insert_desc x l) = S (length l).
Proof.
  induction l as [|z l IH]; simpl; [reflexivity|].
  destruct (z <? x); simpl; [reflexivity | now rewrite IH].
Qed.

Lemma sort_desc_length l : length (sort_desc l) = length l.
Proof.
  induction l as [|x l IH]; simpl; [reflexivity|].
  now rewrite insert_desc_length, IH.
Qed.

Lemma insert_desc_strict x l :
  strictly_desc l -> ~ In x l -> strictly_desc (insert_desc x l).
Proof.
  induction l as [|z l IH]; simpl.
  - intros _ _. split; [constructor | exact I].
  - intros [Hz Hl] Hx. destruct (Z.ltb_spec z x) as [Hlt|Hge]; simpl.
    + split; [|now split]. constructor; [exact Hlt|].
      eapply List.Forall_impl; [|exact Hz]. simpl. intros a Ha. lia.
    + split.
      * apply List.Forall_forall. intros a Ha. apply insert_desc_In in Ha.
        destruct Ha as [->|Ha].
        -- assert (x <> z) by (intros ->; apply Hx; now left). lia.
        -- rewrite List.Forall_forall in Hz. now apply Hz.
      * apply IH; [exact Hl|]. intros Hin. apply Hx. now right.
Qed.

Lemma sort_desc_strict l : List.NoDup l -> strictly_desc (sort_desc l).
Proof.
  induction 1 as [|x l Hx Hnd IH]; simpl; [exact I|].
  apply insert_desc_strict; [exact IH|]. now rewrite sort_desc_In.
Qed.

(** In a strictly descending list of integers, five consecutive values
    sit next to each other. *)
Lemma strictly_desc_run l r :
  strictly_desc l ->
  (forall k, r <= k <= r + 4 -> In k l) ->
  exists pre post, l = pre ++ [r + 4; r + 3; r + 2; r + 1; r] ++ post.
Proof.
  assert (Hnext : forall x t,
            strictly_desc (x :: t) -> In (x - 1) (x :: t) ->
            exists t', t = (x - 1) :: t').
  { intros x t [Hx Ht] [Heq|Hin]; [lia|].
    destruct t as [|y t']; [destruct Hin|].
    destruct Ht as [Hy _]. inversion Hx as [|? ? Hyx _]; subst.
    destruct Hin as [<-|Hin]; [now exists t'|].
    rewrite List.Forall_forall in Hy. specialize (Hy _ Hin). lia. }
  induction l as [|x t IH]; intros Hsd Hall.
  - destruct (Hall r); lia.
  - destruct (Z.eq_dec x (r + 4)) as [->|Hne].
    + exists []. simpl.
      destruct (Hnext (r + 4) t Hsd) as [t1 ->].
      { replace (r + 4 - 1) with (r + 3) by lia. apply Hall. lia. }
      replace (r + 4 - 1) with (r + 3) in * by lia.
      destruct Hsd as [_ Hsd1].
      destruct (Hnext (r + 3) t1 Hsd1) as [t2 ->].
      { replace (r + 3 - 1) with (r + 2) by lia.
        destruct (Hall (r + 2)) as [H|H]; [lia | lia | exact H]. }
      replace (r + 3 - 1) with (r + 2) in * by lia.
      destruct Hsd1 as [_ Hsd2].
      destruct (Hnext (r + 2) t2 Hsd2) as [t3 ->].
      { replace (r + 2 - 1) with (r + 1) by lia.
        destruct (Hall (r + 1)) as [H|[H|H]]; [lia | lia | lia | exact H]. }
      replace (r + 2 - 1) with (r + 1) in * by lia.
      destruct Hsd2 as [_ Hsd3].
      destruct (Hnext (r + 1) t3 Hsd3) as [t4 ->].
      { replace (r + 1 - 1) with r by lia.
        destruct (Hall r) as [H|[H|[H|H]]]; [lia | lia | lia | lia | exact H]. }
      replace (r + 1 - 1) with r by lia.
      now exists t4.
    + destruct Hsd as [Hx Hsd]. rewrite List.Forall_forall in Hx.
      assert (Htop : In (r + 4) t).
      { destruct (Hall (r + 4)) as [H|H]; [lia | congruence | exact H]. }
      pose proof (Hx _ Htop) as Hbig.
      destruct (IH Hsd) as (pre & post & ->).
      { intros k Hk. destruct (Hall k Hk) as [H|H]; [lia | exact H]. }
      now exists (x :: pre), post.
Qed.

Lemma checkStraightDraw_run pre post r :
  checkStraightDraw (pre ++ [r + 4; r + 3; r + 2; r + 1; r] ++ post) = true.
Proof.
  apply checkStraightDraw_spec. rewrite !List.length_app. simpl. split; [lia|].
  left. exists (length pre). split; [lia|].
  unfold window_hit, slice5. rewrite drop_app_length. simpl.
  apply Z.leb_le. lia.
Qed.

Lemma set_of_length seen xs : (length (set_of seen xs) <= length xs)%nat.
Proof.
  revert seen. induction xs as [|y xs IH]; intros seen; simpl; [lia|].
  destruct (existsb (Z.eqb y) seen); simpl; [specialize (IH seen) | specialize (IH (y :: seen))]; lia.
Qed.

(** A hand that holds a straight is never rated below 0.9: if five
    consecutive ranks, or the wheel A-2-3-4-5, are among the visible
    cards, the made-hand value is at least that of a straight and the
    straight-draw bonus is added on top. *)
Theorem evaluate_straight_floor holeCards communityCards r :
  (forall k, r <= k <= r + 4 -> In k (ranks_of holeCards communityCards)) \/
  (forall k, In k [14; 2; 3; 4; 5] -> In k (ranks_of holeCards communityCards)) ->
  (0.9 <= evaluate holeCards communityCards)%Q.
Proof.
  intros Hrun. unfold ranks_of, rank_of in Hrun. unfold evaluate.
  change (List.filter (fun c => negb (String.eqb c HIDDEN)) (holeCards ++ communityCards))
    with (visible_cards (holeCards ++ communityCards)).
  set (cards := visible_cards (holeCards ++ communityCards)) in *.
  set (ranks := map (fun c => normalizeRank (slice_init c)) cards) in *.
  set (sorted := sort_desc (set_of [] ranks)).
  assert (Hin : forall k, In k ranks -> In k sorted).
  { intros k Hk. unfold sorted. rewrite sort_desc_In, set_of_In. auto. }
  assert (Hsd : strictly_desc sorted) by (apply sort_desc_strict, set_of_NoDup).
  assert (Hfive : exists five, List.NoDup five /\ length five = 5%nat /\
                               forall k, In k five -> In k sorted).
  { destruct Hrun as [H|H].
    - exists [r + 4; r + 3; r + 2; r + 1; r]. split; [|split; [reflexivity|]].
      + repeat (constructor; [simpl; lia|]). constructor.
      + intros k Hk. apply Hin, H. simpl in Hk. lia.
    - exists [14; 2; 3; 4; 5]. split; [|split; [reflexivity|]].
      + repeat (constructor; [simpl; lia|]). constructor.
      + intros k Hk. now apply Hin, H. }
  assert (Hlen : (5 <= length sorted)%nat).
  { destruct Hfive as (five & Hnd & H5 & Hsub). rewrite <- H5.
    apply List.NoDup_incl_length; [exact Hnd | exact Hsub]. }
  assert (Hcards : (length cards <? 2)%nat = false).
  { apply Nat.ltb_ge. unfold sorted in Hlen. rewrite sort_desc_length in Hlen.
    pose proof (set_of_length [] ranks) as Hle.
    assert (length ranks = length cards) by (unfold ranks; apply List.length_map).
    lia. }
  assert (Hdraw : checkStraightDraw sorted = true).
  { destruct Hrun as [H|H].
    - destruct (strictly_desc_run sorted r Hsd) as (pre & post & ->).
      + intros k Hk. now apply Hin, H.
      + apply checkStraightDraw_run.
    - apply checkStraightDraw_spec. split; [lia|]. right.
      split; apply Hin, H; simpl; auto. }
  rewrite Hcards. cbv zeta. fold ranks. fold sorted. rewrite Hdraw.
  apply Nat.leb_le in Hlen. rewrite Hlen. simpl.
  repeat match goal with
         | |- context [if ?b then _ else _] => destruct b
         end; apply Q.min_glb; lra.
Qed.

Lemma evaluate_straight_floor_witness :
  (0.9 <= evaluate ["9S"; "8H"] ["7D"; "6C"; "5S"; "KD"; "2C"])%Q.
Proof.
  apply (evaluate_straight_floor ["9S"; "8H"] ["7D"; "6C"; "5S"; "KD"; "2C"] 5).
  left. intros k Hk. vm_compute.
  assert (k = 5 \/ k = 6 \/ k = 7 \/ k = 8 \/ k = 9) as H by lia.
  intuition.
Defined.

(** *** Rank counts *)

Lemma count_ranks_cons x l : count_ranks (x :: l) = bump_rank x (count_ranks l).
Proof.
  rewrite (count_ranks_perm (x :: l) (l ++ [x])).
  - unfold count_ranks. now rewrite fold_left_app.
  - apply Permutation_cons_append.
Qed.

Lemma count_at_below r m :
  List.Forall (fun kv => r < fst kv) m -> count_at r m = 0.
Proof.
  induction 1 as [|[k n] m Hk _ IH]; simpl; [reflexivity|].
  simpl in Hk. destruct (Z.eqb_spec r k); [lia | exact IH].
Qed.

Lemma bump_rank_ascending r m :
  keys_ascending m -> keys_ascending (bump_rank r m).
Proof.
  induction m as [|[k n] m IH]; simpl.
  - intros _. split; [constructor | exact I].
  - intros [Hk Hm]. destruct (Z.eqb_spec r k) as [->|Hne]; simpl.
    + now split.
    + destruct (Z.ltb_spec r k) as [Hlt|Hge]; simpl.
      * split; [|now split]. constructor; [exact Hlt|].
        eapply List.Forall_impl; [|exact Hk]. simpl. intros a Ha. lia.
      * split; [|now apply IH].
        clear IH Hm. induction m as [|[k' n'] m IHm]; simpl.
        -- constructor; [simpl; lia | constructor].
        -- inversion Hk as [|? ? Hk' Hrest]; subst. simpl in Hk'.
           destruct (Z.eqb_spec r k'); [now constructor|].
           destruct (Z.ltb_spec r k'); constructor; simpl; try lia; auto.
Qed.

Lemma bump_rank_count_at k r m :
  keys_ascending m ->
  count_at k (bump_rank r m) = count_at k m + (if k =? r then 1 else 0).
Proof.
  induction m as [|[k0 n] m IH]; simpl.
  - intros _. destruct (k =? r); lia.
  - intros [Hk Hm]. destruct (Z.eqb_spec r k0) as [->|Hne]; simpl.
    + destruct (Z.eqb_spec k k0); lia.
    + destruct (Z.ltb_spec r k0) as [Hlt|Hge]; simpl.
      * destruct (Z.eqb_spec k r) as [->|Hkr].
        -- destruct (Z.eqb_spec r k0); [lia|].
           rewrite count_at_below; [lia|].
           eapply List.Forall_impl; [|exact Hk]. simpl. intros a Ha. lia.
        -- lia.
      * destruct (Z.eqb_spec k k0) as [->|Hkk].
        -- destruct (Z.eqb_spec k0 r); lia.
        -- now apply IH.
Qed.

Lemma bump_rank_positive r m :
  List.Forall (fun kv => 1 <= snd kv) m ->
  List.Forall (fun kv => 1 <= snd kv) (bump_rank r m).
Proof.
  induction 1 as [|[k n] m Hn Hm IH]; simpl.
  - constructor; [simpl; lia | constructor].
  - simpl in Hn. destruct (r =? k); [|destruct (r <? k)];
      repeat constructor; simpl; auto; lia.
Qed.

Lemma count_ranks_spec l :
  keys_ascending (count_ranks l) /\
  List.Forall (fun kv => 1 <= snd kv) (count_ranks l) /\
  forall k, count_at k (count_ranks l) = occurrences k l.
Proof.
  unfold occurrences. induction l as [|x l (Ha & Hp & Hc)].
  - repeat split; constructor.
  - rewrite count_ranks_cons. split; [|split].
    + now apply bump_rank_ascending.
    + now apply bump_rank_positive.
    + intros k. rewrite bump_rank_count_at, Hc by exact Ha. simpl.
      destruct (Z.eq_dec x k) as [->|Hne].
      * rewrite Z.eqb_refl. lia.
      * destruct (Z.eqb_spec k x); [congruence | lia].
Qed.

Lemma count_at_In k n m :
  keys_ascending m -> In (k, n) m -> count_at k m = n.
Proof.
  induction m as [|[k0 n0] m IH]; simpl; [intros _ []|].
  intros [Hk Hm] [Heq|Hin].
  - injection Heq as -> ->. now rewrite Z.eqb_refl.
  - rewrite List.Forall_forall in Hk. specialize (Hk _ Hin). simpl in Hk.
    destruct (Z.eqb_spec k k0); [lia | now apply IH].
Qed.

Lemma In_count_at k m : count_at k m <> 0 -> In (k, count_at k m) m.
Proof.
  induction m as [|[k0 n0] m IH]; simpl; [congruence|].
  destruct (Z.eqb_spec k k0) as [->|Hne]; [now left | right; now apply IH].
Qed.

(** The first element of [sort_desc l] is the largest element of [l]. *)
Lemma sort_desc_head l x :
  In x l -> exists h t, sort_desc l = h :: t /\ In h l /\ forall y, In y l -> y <= h.
Proof.
  revert x. induction l as [|z l IH]; intros x Hx; [destruct Hx|]. simpl.
  destruct l as [|z' l'].
  - exists z, []. simpl. repeat split; auto. intros y [->|[]]. lia.
  - destruct (IH z') as (h & t & Hs & Hh & Hmax); [now left|].
    rewrite Hs. simpl. destruct (Z.ltb_spec h z) as [Hlt|Hge].
    + exists z, (h :: t). repeat split; [now left|].
      intros y [->|Hy]; [lia|]. specialize (Hmax _ Hy). lia.
    + exists h, (insert_desc z t). repeat split; [now right|].
      intros y [->|Hy]; [lia|]. now apply Hmax.
Qed.

(** Four of a kind.  When some rank occurs exactly four times among the
    visible cards and no rank occurs more often, the strength is at least
    0.95.  (With five or more cards of one rank, which a single deck
    cannot produce, the test [counts[0] === 4] fails and this does not
    apply.) *)
Theorem evaluate_quads_floor holeCards communityCards k :
  occurrences k (ranks_of holeCards communityCards) = 4 ->
  (forall j, occurrences j (ranks_of holeCards communityCards) <= 4) ->
  (0.95 <= evaluate holeCards communityCards)%Q.
Proof.
  unfold ranks_of, rank_of. intros Hk Hmax. unfold evaluate.
  change (List.filter (fun c => negb (String.eqb c HIDDEN)) (holeCards ++ communityCards))
    with (visible_cards (holeCards ++ communityCards)).
  set (cards := visible_cards (holeCards ++ communityCards)) in *.
  set (ranks := map (fun c => normalizeRank (slice_init c)) cards) in *.
  destruct (count_ranks_spec ranks) as (Hasc & Hpos & Hcount).
  assert (Hcards : (length cards <? 2)%nat = false).
  { apply Nat.ltb_ge.
    assert (Hlen : length ranks = length cards) by (unfold ranks; apply List.length_map).
    assert (Hocc : (count_occ Z.eq_dec ranks k <= length ranks)%nat)
      by apply count_occ_bound.
    unfold occurrences in Hk. lia. }
  assert (Hin4 : In 4 (map snd (count_ranks ranks))).
  { apply in_map_iff. exists (k, 4). split; [reflexivity|].
    rewrite <- Hk, <- Hcount. apply In_count_at. rewrite Hcount, Hk. lia. }
  destruct (sort_desc_head _ _ Hin4) as (h & t & Hs & Hh & Hhmax).
  assert (h = 4).
  { apply Z.le_antisymm; [|now apply Hhmax].
    apply in_map_iff in Hh as ([j n] & <- & Hjn). simpl.
    rewrite <- (count_at_In j n _ Hasc Hjn), Hcount. apply Hmax. }
  subst h. rewrite Hcards. cbv zeta. fold ranks. rewrite Hs. simpl.
  repeat match goal with
         | |- context [if ?b then _ else _] => destruct b
         end; apply Q.min_glb; lra.
Qed.

Lemma evaluate_quads_floor_witness :
  (0.95 <= evaluate ["9S"; "9H"] ["9D"; "9C"; "KS"])%Q.
Proof.
  apply (evaluate_quads_floor ["9S"; "9H"] ["9D"; "9C"; "KS"] 9).
  - reflexivity.
  - intros j. unfold occurrences.
    assert (E : ranks_of ["9S"; "9H"] ["9D"; "9C"; "KS"] = [9; 9; 9; 9; 13])
      by reflexivity.
    rewrite E.
    destruct (Z.eq_dec j 9) as [->|H9]; [vm_compute; discriminate|].
    destruct (Z.eq_dec j 13) as [->|H13]; [vm_compute; discriminate|].
    rewrite !count_occ_cons_neq by congruence. simpl. lia.
Defined.

(** *** Suit counts *)

Lemma count_suits_cons x l : count_suits (x :: l) = bump_suit x (count_suits l).
Proof.
  rewrite (count_suits_perm (x :: l) (l ++ [x])).
  - unfold count_suits. now rewrite fold_left_app.
  - apply Permutation_cons_append.
Qed.

Lemma count_suits_lookup l s :
  default 0 (count_suits l !! s) = suit_occurrences s l.
Proof.
  unfold suit_occurrences. induction l as [|x l IH].
  - reflexivity.
  - rewrite count_suits_cons. unfold bump_suit. simpl count_occ.
    destruct (String.string_dec x s) as [->|Hne].
    + rewrite lookup_insert_eq. simpl. rewrite IH. lia.
    + rewrite lookup_insert_ne by exact Hne. exact IH.
Qed.

Lemma max_of_ge x l : In x l -> x <= max_of l.
Proof.
  unfold max_of. induction l as [|y l IH]; simpl; [intros []|].
  intros [->|H]; [lia|]. specialize (IH H). lia.
Qed.

(** Flush.  When at least five visible cards share a suit, the strength is
    at least 0.85. *)
Theorem evaluate_flush_floor holeCards communityCards s :
  5 <= suit_occurrences s (suits_of holeCards communityCards) ->
  (0.85 <= evaluate holeCards communityCards)%Q.
Proof.
  unfold suits_of. intros Hs. unfold evaluate.
  change (List.filter (fun c => negb (String.eqb c HIDDEN)) (holeCards ++ communityCards))
    with (visible_cards (holeCards ++ communityCards)).
  set (cards := visible_cards (holeCards ++ communityCards)) in *.
  set (suits := map slice_last cards) in *.
  assert (Hcards : (length cards <? 2)%nat = false).
  { apply Nat.ltb_ge.
    assert (Hlen : length suits = length cards) by (unfold suits; apply List.length_map).
    assert (Hocc : (count_occ String.string_dec suits s <= length suits)%nat)
      by apply count_occ_bound.
    unfold suit_occurrences in Hs. lia. }
  assert (Hmax : (5 <=? max_of (map snd (map_to_list (count_suits suits)))) = true).
  { apply Z.leb_le. pose proof (count_suits_lookup suits s) as Hl.
    destruct (count_suits suits !! s) as [n|] eqn:E; simpl in Hl; [|lia].
    etransitivity; [exact Hs|]. rewrite <- Hl. apply max_of_ge.
    apply in_map_iff. exists (s, n). split; [reflexivity|].
    apply list_elem_of_In. now apply elem_of_map_to_list. }
  rewrite Hcards. cbv zeta. fold suits. rewrite Hmax.
  assert (Hne : (max_of (map snd (map_to_list (count_suits suits))) =? 4) = false).
  { apply Z.leb_le in Hmax. apply Z.eqb_neq. lia. }
  rewrite Hne.
  repeat match goal with
         | |- context [if ?b then _ else _] => destruct b
         end; apply Q.min_glb; lra.
Qed.

Lemma evaluate_flush_floor_witness :
  (0.85 <= evaluate ["2H"; "9H"] ["KH"; "5H"; "JH"; "3C"])%Q.
Proof.
  apply (evaluate_flush_floor ["2H"; "9H"] ["KH"; "5H"; "JH"; "3C"] "H").
  vm_compute. discriminate.
Defined.

End EvaluatorFacts.

(** ** Starting and stopping the loop *)

Section LifecycleFacts.

Import Lifecycle.

Lemma filter_out_absent h l :
  ~ In h l -> List.filter (fun x => negb (x =? h)%nat) l = l.
Proof.
  induction l as [|y l IH]; simpl; [reflexivity|].
  intros Hn. destruct (Nat.eqb_spec y h) as [->|Hne]; simpl.
  - exfalso. apply Hn. now left.
  - rewrite IH; [reflexivity|]. intros H. apply Hn. now right.
Qed.

(** [stop] undoes one [start]: the timer it created is cleared, the other
    timers of the runtime are untouched, and the agent is marked inactive.
    Without a timer held, [stop] does nothing at all and in particular
    leaves [isActive] as it was. *)
Theorem stop_undoes_start a rt :
  well_formed rt ->
  running (snd (stop (start (a, rt)))) = running rt /\
  fst (stop (start (a, rt))) = {| pollInterval := None; isActive := false |} /\
  (pollInterval a = None -> stop (a, rt) = (a, rt)).
Proof.
  intros Hwf. split; [|split].
  - simpl. rewrite Nat.eqb_refl. simpl. apply filter_out_absent.
    intros Hin. unfold well_formed in Hwf. rewrite List.Forall_forall in Hwf.
    specialize (Hwf _ Hin). lia.
  - reflexivity.
  - intros Hn. unfold stop. now rewrite Hn.
Qed.

Lemma stop_undoes_start_witness :
  let a := {| pollInterval := None; isActive := true |} in
  let rt := {| running := [0; 2]%nat; next_handle := 3 |} in
  running (snd (stop (start (a, rt)))) = running rt /\
  fst (stop (start (a, rt))) = {| pollInterval := None; isActive := false |} /\
  (pollInterval a = None -> stop (a, rt) = (a, rt)).
Proof.
  intros a rt. apply (stop_undoes_start a rt).
  repeat constructor.
Defined.

(** [start] does not check for a timer already held.  After two calls to
    [start], [stop] clears the second timer and only that one: what keeps
    running is the first timer together with the timers that were running
    before.  The agent holds no handle and reports itself inactive, so a
    further [stop] changes nothing and the first timer cannot be
    reached. *)
Theorem start_twice_leaves_a_timer a rt :
  well_formed rt ->
  running (snd (stop (start (start (a, rt))))) = next_handle rt :: running rt /\
  fst (stop (start (start (a, rt)))) = {| pollInterval := None; isActive := false |} /\
  stop (stop (start (start (a, rt)))) = stop (start (start (a, rt))).
Proof.
  intros Hwf. simpl. rewrite Nat.eqb_refl. simpl.
  destruct (Nat.eqb_spec (next_handle rt) (S (next_handle rt))) as [E|_]; [lia|].
  simpl. rewrite filter_out_absent.
  - repeat split.
  - intros Hin. unfold well_formed in Hwf. rewrite List.Forall_forall in Hwf.
    specialize (Hwf _ Hin). lia.
Qed.

Lemma start_twice_leaves_a_timer_witness :
  let a := {| pollInterval := None; isActive := true |} in
  let rt := {| running := [1]%nat; next_handle := 2 |} in
  running (snd (stop (start (start (a, rt))))) = next_handle rt :: running rt /\
  fst (stop (start (start (a, rt)))) = {| pollInterval := None; isActive := false |} /\
  stop (stop (start (start (a, rt)))) = stop (start (start (a, rt))).
Proof.
  intros a rt. apply (start_twice_leaves_a_timer a rt).
  repeat constructor.
Defined.

End LifecycleFacts.
